(** * matriz_extrator: the row-interpretation core of [extrair_matriz.py]

    A shallow embedding of the cell normaliser, the field grouper, the row
    classifier, the fill-down of the equipment fields, the worksheet loop of
    [process_workbook] and the per-file loop of [main], followed by the
    properties of each.

    Python strings are sequences of Unicode code points: a [str] is a list of
    code points.  The whitespace class is the one shared by [str.strip],
    [str.isspace] and the [\s] of [re] on [str] patterns.  [str.lower] and
    [str.upper] depend on the Unicode case tables of the runtime and are taken
    as parameters; where a property needs them, it assumes their behaviour on
    the characters involved and nothing more. *)

From Stdlib Require Import List Bool Arith NArith ZArith Lia.
From Stdlib Require Import Ascii String.
From Stdlib Require Import DecimalString.
From Stdlib Require Import SpecFloat.
From Stdlib Require Import Sorted.
Import ListNotations.

(* ================================================================= *)
(** ** Strings as code-point sequences *)

Module Str.

Definition char := N.
Definition str := list char.

(** An ASCII literal as a code-point sequence. *)
Definition cp (s : string) : str := map N_of_ascii (list_ascii_of_string s).

Definition SP : char := 32%N.
Definition LF : char := 10%N.
Definition CR : char := 13%N.

Fixpoint eqb (a b : str) : bool :=
  match a, b with
  | [], [] => true
  | x :: a', y :: b' => N.eqb x y && eqb a' b'
  | _, _ => false
  end.

(** [str.isspace] of one character; [\s] matches the same characters. *)
Definition isspace (c : char) : bool :=
  ((0x09 <=? c) && (c <=? 0x0D) || (0x1C <=? c) && (c <=? 0x20)
   || (c =? 0x85) || (c =? 0xA0) || (c =? 0x1680)
   || (0x2000 <=? c) && (c <=? 0x200A)
   || (c =? 0x2028) || (c =? 0x2029) || (c =? 0x202F) || (c =? 0x205F)
   || (c =? 0x3000))%N.

(** [s.replace(old, new)] for one-character [old] and [new]. *)
Definition replace (old new : char) (s : str) : str :=
  map (fun c => if N.eqb c old then new else c) s.

(** [re.sub(r"\s+", " ", s)]: every maximal run of whitespace becomes one
    space. *)
Fixpoint collapse (s : str) : str :=
  match s with
  | [] => []
  | c :: t =>
      if isspace c then
        match t with
        | d :: _ => if isspace d then collapse t else SP :: collapse t
        | [] => [SP]
        end
      else c :: collapse t
  end.

Fixpoint lstrip (s : str) : str :=
  match s with
  | [] => []
  | c :: t => if isspace c then lstrip t else s
  end.

Fixpoint rstrip (s : str) : str :=
  match s with
  | [] => []
  | c :: t =>
      match rstrip t with
      | [] => if isspace c then [] else [c]
      | t' => c :: t'
      end
  end.

(** [s.strip()] *)
Definition strip (s : str) : str := rstrip (lstrip s).

(** [sep.join(parts)] *)
Fixpoint join (sep : str) (parts : list str) : str :=
  match parts with
  | [] => []
  | [p] => p
  | p :: ps => p ++ sep ++ join sep ps
  end.

Fixpoint prefixb (k s : str) : bool :=
  match k, s with
  | [], _ => true
  | x :: k', y :: s' => N.eqb x y && prefixb k' s'
  | _ :: _, [] => false
  end.

(** [k in s] for strings: [k] occurs in [s] as a contiguous substring. *)
Fixpoint contains (s k : str) : bool :=
  match s with
  | [] => prefixb k []
  | _ :: t => prefixb k s || contains t k
  end.

(** [str(n)] for a Python [int]. *)
Definition of_Z (z : Z) : str := cp (NilZero.string_of_int (Z.to_int z)).

(** Lower-casing of the ASCII letters, every other code point unchanged.
    [str.lower] acts like this on a string of ASCII characters. *)
Definition ascii_lower_char (c : char) : char :=
  if ((0x41 <=? c) && (c <=? 0x5A))%N then (c + 32)%N else c.
Definition ascii_lower (s : str) : str := map ascii_lower_char s.

Definition ascii_upper_char (c : char) : char :=
  if ((0x61 <=? c) && (c <=? 0x7A))%N then (c - 32)%N else c.
Definition ascii_upper (s : str) : str := map ascii_upper_char s.

End Str.

Import Str.

Arguments isspace : simpl never.

(* ================================================================= *)
(** ** Raw cell values *)

(** What a worksheet cell can hold.  A Python [float] is an IEEE 754 binary
    float; [VOther] stands for any other object (a date, a formula error...)
    and carries the text [str] gives for it. *)
Inductive value : Type :=
| VNone
| VInt (z : Z)
| VFloat (f : spec_float)
| VBool (b : bool)
| VStr (s : str)
| VOther (text : str).

(** [f.is_integer()] *)
Definition float_is_integer (f : spec_float) : bool :=
  match f with
  | S754_zero _ => true
  | S754_infinity _ | S754_nan => false
  | S754_finite _ m e =>
      if (0 <=? e)%Z then true else (Z.pos m mod 2 ^ (- e) =? 0)%Z
  end.

(** [int(f)]: truncation towards zero.  Python raises on an infinity or a NaN;
    the only call is guarded by [is_integer], which is false on both. *)
Definition float_to_int (f : spec_float) : Z :=
  match f with
  | S754_finite s m e =>
      let a := if (0 <=? e)%Z then (Z.pos m * 2 ^ e)%Z
               else (Z.pos m / 2 ^ (- e))%Z in
      if s then (- a)%Z else a
  | _ => 0%Z
  end.

(** The number a finite float stands for, as a fraction [num / 2^k]. *)
Definition float_fraction (f : spec_float) : option (Z * Z) :=
  match f with
  | S754_zero _ => Some (0%Z, 1%Z)
  | S754_finite s m e =>
      let sm := if s then Z.neg m else Z.pos m in
      if (0 <=? e)%Z then Some ((sm * 2 ^ e)%Z, 1%Z)
      else Some (sm, (2 ^ (- e))%Z)
  | _ => None
  end.

(** Exceptions that reach a caller, by their message. *)
Inductive result (A : Type) : Type :=
| Ok (a : A)
| Raise (msg : str).
Arguments Ok {A} a.
Arguments Raise {A} msg.

(** A worksheet: cell lookup by column letters and row number, and the last
    populated row. *)
Record worksheet : Type := {
  cell : string -> nat -> value;
  max_row : nat
}.

Record record : Type := {
  arquivo_de_origem : str;
  tag_do_equipamento : option str;
  descricao_do_equipamento : option str;
  tag_da_fonte_de_energia : option str;
  descricao_da_fonte_de_energia : option str;
  como_bloquear : option str;
  onde_bloquear_tag : option str;
  tipo_de_bloqueio : option str;
  como_desbloquear : option str
}.

(* ================================================================= *)
(** ** Configuration *)

Definition START_ROW : nat := 11.

Definition COLS_EQUIP_TAG : list string := ["B"%string].
Definition COLS_EQUIP_DESC : list string := ["C"; "D"]%string.
Definition COLS_FONTE_TAG : list string := ["E"; "F"; "G"]%string.
Definition COLS_FONTE_DESC : list string := ["H"; "I"; "J"; "K"; "L"]%string.
Definition COLS_COMO_BLOQUEAR : list string := ["M"; "N"]%string.
Definition COLS_ONDE_BLOQUEAR : list string := ["O"; "P"; "Q"; "R"; "S"]%string.
Definition COLS_TIPO_BLOQUEIO : list string := ["T"; "U"]%string.
Definition COLS_COMO_DESBLOQUEAR : list string := ["Z"; "AA"]%string.

(** [sorted(set(...))] of the eight lists above, in code-point order. *)
Definition ALL_RELEVANT_COLS : list string :=
  ["AA"; "B"; "C"; "D"; "E"; "F"; "G"; "H"; "I"; "J"; "K"; "L"; "M"; "N";
   "O"; "P"; "Q"; "R"; "S"; "T"; "U"; "Z"]%string.

Definition EM_DASH : char := 0x2014%N.
Definition EN_DASH : char := 0x2013%N.

Definition EMPTY_TOKENS : list str :=
  [cp "-"; [EM_DASH]; [EN_DASH]; cp "n/a"; cp "na"; cp "null"; cp "none"].

(** E-circumflex and A-acute, the two non-ASCII letters of the keywords. *)
Definition E_CIRC : char := 0xCA%N.
Definition A_ACUTE : char := 0xC1%N.

Definition FOOTER_KEYWORDS : list str :=
  [cp "LEGENDA"; cp "ELABORADOR"; cp "REVISOR"; cp "APROVADOR";
   cp "PROVIDENCIAS"; cp "PROVID" ++ [E_CIRC] ++ cp "NCIAS";
   cp "DISPOSITIVO"; cp "LAYOUT"; cp "P" ++ [A_ACUTE] ++ cp "GINA";
   cp "PAGINA"].

Definition FOOTER_CHECK_COLS : list string :=
  ["A"; "B"; "C"; "D"; "E"; "H"; "M"; "O"; "T"; "Z"; "AA"]%string.

Definition isSome {A : Type} (o : option A) : bool :=
  match o with Some _ => true | None => false end.

(* ================================================================= *)
(** ** The extractor *)

Section Extractor.

Set Default Proof Using "Type".

(** [str.lower], [str.upper] and [str] of a float that is not integral (the
    shortest decimal text that reads back as the same float). *)
Variable lower : str -> str.
Variable upper : str -> str.
Variable float_str : spec_float -> str.

(** [str(value)] *)
Definition py_str (v : value) : str :=
  match v with
  | VNone => cp "None"
  | VInt z => of_Z z
  | VFloat f => float_str f
  | VBool b => if b then cp "True" else cp "False"
  | VStr s => s
  | VOther text => text
  end.

(** [isinstance(value, (int, float))]; [bool] is a subclass of [int]. *)
Definition is_int_or_float (v : value) : bool :=
  match v with
  | VInt _ | VFloat _ | VBool _ => true
  | _ => false
  end.

(** The text a value is turned into before any cleanup: the first half of
    [normalize_cell]. *)
Definition render (v : value) : str :=
  if is_int_or_float v then
    let v' := match v with
              | VFloat f => if float_is_integer f then VInt (float_to_int f) else v
              | _ => v
              end in
    py_str v'
  else py_str v.

Definition in_empty_tokens (s : str) : bool := existsb (Str.eqb s) EMPTY_TOKENS.

(** The cleanup steps of [normalize_cell]. *)
Definition cleanup (s : str) : str :=
  strip (collapse (replace CR SP (replace LF SP s))).

Definition normalize_cell (v : value) : option str :=
  match v with
  | VNone => None
  | _ =>
      let s := cleanup (render v) in
      match s with
      | [] => None
      | _ => if in_empty_tokens (lower s) then None else Some s
      end
  end.

(** An [Optional[str]] seen as a cell value again. *)
Definition value_of (o : option str) : value :=
  match o with
  | None => VNone
  | Some s => VStr s
  end.

Definition join_valid (values : list value) (sep : str) : option str :=
  let parts :=
    fold_left
      (fun parts v =>
         match normalize_cell v with
         | Some nv => parts ++ [nv]
         | None => parts
         end)
      values [] in
  match parts with
  | [] => None
  | _ =>
      let out := strip (collapse (join sep parts)) in
      match out with
      | [] => None
      | _ => Some out
      end
  end.

Definition get_group (ws : worksheet) (row : nat) (cols : list string)
  (sep : str) : option str :=
  let vals := map (fun c => cell ws c row) cols in
  join_valid vals sep.

Definition row_has_any_data (ws : worksheet) (row : nat) : bool :=
  existsb (fun c => isSome (normalize_cell (cell ws c row))) ALL_RELEVANT_COLS.

Definition row_has_footer_marker (ws : worksheet) (row : nat) : bool :=
  let texts :=
    fold_left
      (fun texts c =>
         match normalize_cell (cell ws c row) with
         | Some ((_ :: _) as v) => texts ++ [upper v]
         | _ => texts
         end)
      FOOTER_CHECK_COLS [] in
  match texts with
  | [] => false
  | _ =>
      let joined := join (cp " | ") texts in
      existsb (fun k => contains joined k) FOOTER_KEYWORDS
  end.

(** The fill-down of one equipment field, as the two assignments of the loop
    body: the effective value and the new last-seen value. *)
Definition fill_down (last current : option str) : option str * option str :=
  match current with
  | None => (last, last)
  | Some _ => (current, current)
  end.

Definition has_source_info (rec : record) : bool :=
  existsb isSome
    [tag_da_fonte_de_energia rec; descricao_da_fonte_de_energia rec;
     como_bloquear rec; onde_bloquear_tag rec; tipo_de_bloqueio rec;
     como_desbloquear rec].

(** What one pass of the loop body of [process_workbook] does. *)
Inductive step : Type :=
| Break
| Continue (last_equip_tag last_equip_desc : option str) (kept : option record).

Definition row_step (ws : worksheet) (source_file_name : str) (r : nat)
  (last_equip_tag last_equip_desc : option str) : step :=
  if row_has_footer_marker ws r then Break
  else if negb (row_has_any_data ws r) then
    Continue last_equip_tag last_equip_desc None
  else
    let equip_tag := get_group ws r COLS_EQUIP_TAG [SP] in
    let equip_desc := get_group ws r COLS_EQUIP_DESC [SP] in
    let '(equip_tag, last_equip_tag) := fill_down last_equip_tag equip_tag in
    let '(equip_desc, last_equip_desc) := fill_down last_equip_desc equip_desc in
    let rec := {|
      arquivo_de_origem := source_file_name;
      tag_do_equipamento := equip_tag;
      descricao_do_equipamento := equip_desc;
      tag_da_fonte_de_energia := get_group ws r COLS_FONTE_TAG [SP];
      descricao_da_fonte_de_energia := get_group ws r COLS_FONTE_DESC [SP];
      como_bloquear := get_group ws r COLS_COMO_BLOQUEAR [SP];
      onde_bloquear_tag := get_group ws r COLS_ONDE_BLOQUEAR [SP];
      tipo_de_bloqueio := get_group ws r COLS_TIPO_BLOQUEIO [SP];
      como_desbloquear := get_group ws r COLS_COMO_DESBLOQUEAR [SP]
    |} in
    if negb (has_source_info rec) then
      Continue last_equip_tag last_equip_desc None
    else Continue last_equip_tag last_equip_desc (Some rec).

(** The [for r in range(...)] loop, on the rows still to visit. *)
Fixpoint rows_loop (ws : worksheet) (source_file_name : str) (rows : list nat)
  (last_equip_tag last_equip_desc : option str) (records : list record)
  : list record :=
  match rows with
  | [] => records
  | r :: rows' =>
      match row_step ws source_file_name r last_equip_tag last_equip_desc with
      | Break => records
      | Continue lt ld None => rows_loop ws source_file_name rows' lt ld records
      | Continue lt ld (Some rec) =>
          rows_loop ws source_file_name rows' lt ld (records ++ [rec])
      end
  end.

(** [range(start_row, max_row + 1)] with [max_row = ws.max_row or start_row]. *)
Definition sheet_rows (start_row : nat) (ws : worksheet) : list nat :=
  let max_row := if Nat.eqb (max_row ws) 0 then start_row else max_row ws in
  seq start_row (max_row + 1 - start_row).

(** The body of [process_workbook] once the first worksheet is at hand, for
    any first data row. *)
Definition extract (ws : worksheet) (source_file_name : str) (start_row : nat)
  : list record :=
  rows_loop ws source_file_name (sheet_rows start_row ws) None None [].

(** The same loop, each kept record paired with the row it was built from. *)
Fixpoint rows_loop_traced (ws : worksheet) (source_file_name : str)
  (rows : list nat) (last_equip_tag last_equip_desc : option str)
  (records : list (nat * record)) : list (nat * record) :=
  match rows with
  | [] => records
  | r :: rows' =>
      match row_step ws source_file_name r last_equip_tag last_equip_desc with
      | Break => records
      | Continue lt ld None =>
          rows_loop_traced ws source_file_name rows' lt ld records
      | Continue lt ld (Some rec) =>
          rows_loop_traced ws source_file_name rows' lt ld (records ++ [(r, rec)])
      end
  end.

Definition extract_traced (ws : worksheet) (source_file_name : str)
  (start_row : nat) : list (nat * record) :=
  rows_loop_traced ws source_file_name (sheet_rows start_row ws) None None [].

(* ----------------------------------------------------------------- *)
(** *** Files *)

(** The file system and the spreadsheet application are outside the program:
    paths, the state of the outside world, the loading of a workbook (its
    list of worksheets) and the conversion of a legacy file, which changes
    the world (it writes the converted file) and may fail. *)
Variable path : Type.
Variable path_name : path -> str.
Variable path_suffix : path -> str.
Variable world : Type.
Variable load_workbook : world -> path -> result (list worksheet).
Variable convert_xls_to_xlsx : world -> path -> world * result path.

Definition process_workbook (w : world) (path_xlsx : path)
  (source_file_name : str) : result (list record) :=
  match load_workbook w path_xlsx with
  | Raise e => Raise e
  | Ok wb =>
      match wb with
      | [] => Raise (cp "list index out of range")
      | ws :: _ => Ok (extract ws source_file_name START_ROW)
      end
  end.

(** The variables of [main] that the per-file loop updates. *)
Record main_state : Type := {
  all_records : list record;
  processed : nat;
  converted : nat;
  failed : list (str * str)
}.

Definition main_init : main_state :=
  {| all_records := []; processed := 0; converted := 0; failed := [] |}.

(** One pass of the [for i, f in enumerate(files)] loop: the [try] block and
    its [except Exception] handler. *)
Definition main_step (w : world) (st : main_state) (f : path)
  : world * main_state :=
  let on_error w' st' e :=
    (w', {| all_records := all_records st'; processed := processed st';
            converted := converted st';
            failed := failed st' ++ [(path_name f, e)] |}) in
  let on_success w' st' recs :=
    (w', {| all_records := all_records st' ++ recs;
            processed := processed st' + 1;
            converted := converted st'; failed := failed st' |}) in
  if Str.eqb (lower (path_suffix f)) (cp ".xls") then
    match convert_xls_to_xlsx w f with
    | (w', Raise e) => on_error w' st e
    | (w', Ok xlsx_path) =>
        let st' := {| all_records := all_records st; processed := processed st;
                      converted := converted st + 1; failed := failed st |} in
        match process_workbook w' xlsx_path (path_name f) with
        | Raise e => on_error w' st' e
        | Ok recs => on_success w' st' recs
        end
    end
  else
    match process_workbook w f (path_name f) with
    | Raise e => on_error w st e
    | Ok recs => on_success w st recs
    end.

Fixpoint main_loop (w : world) (st : main_state) (files : list path)
  : world * main_state :=
  match files with
  | [] => (w, st)
  | f :: files' =>
      let '(w', st') := main_step w st f in
      main_loop w' st' files'
  end.

(** What processing one file comes to, from a given state of the world: the
    world afterwards and either the file's records or the error text. *)
Definition file_outcome (w : world) (f : path)
  : world * result (list record) :=
  if Str.eqb (lower (path_suffix f)) (cp ".xls") then
    match convert_xls_to_xlsx w f with
    | (w', Raise e) => (w', Raise e)
    | (w', Ok xlsx_path) => (w', process_workbook w' xlsx_path (path_name f))
    end
  else (w, process_workbook w f (path_name f)).

(** The outcomes of a batch, file by file, the world threaded through. *)
Fixpoint batch_outcomes (w : world) (files : list path)
  : list (path * result (list record)) :=
  match files with
  | [] => []
  | f :: files' =>
      let '(w', o) := file_outcome w f in
      (f, o) :: batch_outcomes w' files'
  end.

Definition records_of (o : path * result (list record)) : list record :=
  match snd o with
  | Ok recs => recs
  | Raise _ => []
  end.

Definition failure_of (o : path * result (list record)) : list (str * str) :=
  match snd o with
  | Ok _ => []
  | Raise e => [(path_name (fst o), e)]
  end.

Definition succeeded (o : path * result (list record)) : bool :=
  match snd o with
  | Ok _ => true
  | Raise _ => false
  end.

(* ================================================================= *)
(** ** Notions used to state the properties *)

(** A string has a character that is not whitespace. *)
Definition has_ink (s : str) : bool := existsb (fun c => negb (isspace c)) s.

Definition starts_clean (s : str) : bool :=
  match s with
  | [] => true
  | c :: _ => negb (isspace c)
  end.

Fixpoint ends_clean (s : str) : bool :=
  match s with
  | [] => true
  | [c] => negb (isspace c)
  | _ :: t => ends_clean t
  end.

(** The only whitespace is the space, and no two whitespace characters are
    next to each other. *)
Fixpoint collapsed (s : str) : bool :=
  match s with
  | [] => true
  | c :: t =>
      (if isspace c then N.eqb c SP && starts_clean t else true) && collapsed t
  end.

Definition tidy (s : str) : bool :=
  collapsed s && starts_clean s && ends_clean s.

(** The shape of a clean string, spelled out. *)
Record Clean (s : str) : Prop := {
  clean_nonempty : s <> [];
  clean_no_newline : ~ In LF s /\ ~ In CR s;
  clean_no_leading : forall c t, s = c :: t -> isspace c = false;
  clean_no_trailing : forall c t, s = t ++ [c] -> isspace c = false;
  clean_no_run :
    forall a c d b, s = a ++ c :: d :: b -> isspace c = true -> isspace d = false
}.

(** [s] is [t] up to the case of its ASCII letters. *)
Definition case_variant (s t : str) : Prop := ascii_lower s = t.

(** Characters on which [str.lower] is known here: the ASCII range and the
    two dashes of the sentinel set. *)
Definition plain_char (c : char) : Prop :=
  (c < 128)%N \/ c = EM_DASH \/ c = EN_DASH.

Definition plain_charb (c : char) : bool :=
  ((c <? 128) || (c =? EM_DASH) || (c =? EN_DASH))%N.

(** The cells of a row that survive normalisation, in column order. *)
Definition surviving (ws : worksheet) (row : nat) (cols : list string)
  : list str :=
  flat_map
    (fun c => match normalize_cell (cell ws c row) with
              | Some s => [s]
              | None => []
              end)
    cols.

(** The field grouper as the specification words it: the surviving values
    joined with the separator, whitespace collapsed, trimmed; absent when
    nothing survives. *)
Definition group_spec (ws : worksheet) (row : nat) (cols : list string)
  (sep : str) : option str :=
  match surviving ws row cols with
  | [] => None
  | parts => Some (strip (collapse (join sep parts)))
  end.

(** The footer test as the specification words it: some marker column has a
    normalised, upper-cased value in which a keyword occurs. *)
Definition footer_spec (ws : worksheet) (row : nat) : Prop :=
  exists c s k,
    In c FOOTER_CHECK_COLS /\ normalize_cell (cell ws c row) = Some s /\
    In k FOOTER_KEYWORDS /\ contains (upper s) k = true.

(** The six fields of a row that describe an energy source. *)
Definition source_groups (ws : worksheet) (r : nat) : list (option str) :=
  map (fun cols => get_group ws r cols [SP])
    [COLS_FONTE_TAG; COLS_FONTE_DESC; COLS_COMO_BLOQUEAR; COLS_ONDE_BLOQUEAR;
     COLS_TIPO_BLOQUEIO; COLS_COMO_DESBLOQUEAR].

Definition row_has_source_info (ws : worksheet) (r : nat) : bool :=
  existsb isSome (source_groups ws r).

(** The most recent value of a field group in rows [start_row .. r]. *)
Definition last_seen (ws : worksheet) (cols : list string)
  (start_row r : nat) : option str :=
  fold_left
    (fun last q => match get_group ws q cols [SP] with
                   | Some v => Some v
                   | None => last
                   end)
    (seq start_row (r + 1 - start_row)) None.

(** The record [process_workbook] builds for row [r] of a sheet read from
    [start_row]. *)
Definition record_at (ws : worksheet) (source_file_name : str)
  (start_row r : nat) : record :=
  {| arquivo_de_origem := source_file_name;
     tag_do_equipamento := last_seen ws COLS_EQUIP_TAG start_row r;
     descricao_do_equipamento := last_seen ws COLS_EQUIP_DESC start_row r;
     tag_da_fonte_de_energia := get_group ws r COLS_FONTE_TAG [SP];
     descricao_da_fonte_de_energia := get_group ws r COLS_FONTE_DESC [SP];
     como_bloquear := get_group ws r COLS_COMO_BLOQUEAR [SP];
     onde_bloquear_tag := get_group ws r COLS_ONDE_BLOQUEAR [SP];
     tipo_de_bloqueio := get_group ws r COLS_TIPO_BLOQUEIO [SP];
     como_desbloquear := get_group ws r COLS_COMO_DESBLOQUEAR [SP] |}.

(** The rows the loop visits before it ends: up to the last row of the
    sheet, or up to the row before the first footer row. *)
Fixpoint before_footer (ws : worksheet) (rows : list nat) : list nat :=
  match rows with
  | [] => []
  | r :: rows' =>
      if row_has_footer_marker ws r then [] else r :: before_footer ws rows'
  end.

(** A run of fill-down updates from a given last-seen value. *)
Fixpoint fill_down_run (last : option str) (vs : list (option str))
  : list (option str) :=
  match vs with
  | [] => []
  | v :: vs' =>
      let '(effective, last') := fill_down last v in
      effective :: fill_down_run last' vs'
  end.

(** What one cell adds to the parts of a group. *)
Definition keep_part (v : value) : list str :=
  match normalize_cell v with
  | Some s => [s]
  | None => []
  end.

(** One fill-down assignment, as a function of the last-seen value. *)
Definition carry (ws : worksheet) (cols : list string)
  (last : option str) (q : nat) : option str :=
  match get_group ws q cols [SP] with
  | Some v => Some v
  | None => last
  end.

(** The record of row [q] when the loop starts at row [a] with the given
    last-seen values. *)
Definition record_from (ws : worksheet) (source_file_name : str)
  (lt ld : option str) (a q : nat) : record :=
  {| arquivo_de_origem := source_file_name;
     tag_do_equipamento :=
       fold_left (carry ws COLS_EQUIP_TAG) (seq a (q + 1 - a)) lt;
     descricao_do_equipamento :=
       fold_left (carry ws COLS_EQUIP_DESC) (seq a (q + 1 - a)) ld;
     tag_da_fonte_de_energia := get_group ws q COLS_FONTE_TAG [SP];
     descricao_da_fonte_de_energia := get_group ws q COLS_FONTE_DESC [SP];
     como_bloquear := get_group ws q COLS_COMO_BLOQUEAR [SP];
     onde_bloquear_tag := get_group ws q COLS_ONDE_BLOQUEAR [SP];
     tipo_de_bloqueio := get_group ws q COLS_TIPO_BLOQUEIO [SP];
     como_desbloquear := get_group ws q COLS_COMO_DESBLOQUEAR [SP] |}.

(** The vertical bar of the separator of the footer test. *)
Definition BAR : char := 124%N.

(** What one marker column adds to the texts of the footer test. *)
Definition marker_text (ws : worksheet) (row : nat) (c : string) : list str :=
  match normalize_cell (cell ws c row) with
  | Some ((_ :: _) as v) => [upper v]
  | _ => []
  end.


(** The decimal point. *)
Definition DOT : char := 46%N.

(** What the fill-down leaves in an equipment field of the record of row [q]:
    the value of the row itself, or else the value of the closest earlier
    row that has one (a row the loop went through: not a footer row, and with
    data), or else nothing. *)
Definition inherits (ws : worksheet) (cols : list string) (start_row q : nat)
  (field : option str) : Prop :=
  match get_group ws q cols [SP] with
  | Some v => field = Some v
  | None =>
      (field = None /\
       forall q', start_row <= q' < q -> get_group ws q' cols [SP] = None)
      \/
      (exists q' v,
         start_row <= q' < q /\ get_group ws q' cols [SP] = Some v /\
         (forall q'', q' < q'' < q -> get_group ws q'' cols [SP] = None) /\
         row_has_footer_marker ws q' = false /\
         row_has_any_data ws q' = true /\
         field = Some v)
  end.

(** The eight optional fields of a record. *)
Definition fields (rec : record) : list (option str) :=
  [tag_do_equipamento rec; descricao_do_equipamento rec;
   tag_da_fonte_de_energia rec; descricao_da_fonte_de_energia rec;
   como_bloquear rec; onde_bloquear_tag rec; tipo_de_bloqueio rec;
   como_desbloquear rec].

(* ----------------------------------------------------------------- *)
(** *** Sample data *)

(** A worksheet given by its populated cells. *)
Fixpoint lookup_cell (cells : list (string * nat * value)) (c : string)
  (r : nat) : value :=
  match cells with
  | [] => VNone
  | (c', r', v) :: rest =>
      if (String.eqb c c' && Nat.eqb r r')%bool then v
      else lookup_cell rest c r
  end.

(** Row 11 has an equipment tag and a how-to-lock text, row 12 only a
    how-to-unlock text, row 13 only an equipment tag, row 14 is the legend,
    and row 15, below it, has values again. *)
Definition sample_sheet : worksheet :=
  {| cell := lookup_cell
       [("B"%string, 11, VStr (cp "EQ-1"));
        ("M"%string, 11, VStr (cp "Valve A"));
        ("Z"%string, 12, VStr (cp "Open valve"));
        ("B"%string, 13, VStr (cp "EQ-2"));
        ("A"%string, 14, VStr (cp "Legenda"));
        ("B"%string, 15, VStr (cp "EQ-3"));
        ("M"%string, 15, VStr (cp "Valve C"))];
     max_row := 15 |}.

(** A row with a value and a sentinel in two neighbouring columns. *)
Definition rede_sheet : worksheet :=
  {| cell := lookup_cell
       [("H"%string, 11, VStr (cp "Rede")); ("I"%string, 11, VStr (cp "-"))];
     max_row := 11 |}.

(** A stand-in for the text of a float that is not integral. *)
Definition sample_float_str (f : spec_float) : str := cp "0.5".

(** The float 2.0: mantissa [2^52], exponent [-51]. *)
Definition two_point_zero : spec_float :=
  S754_finite false 4503599627370496 (-51).

(** A batch of three files, numbered; the second cannot be loaded. *)
Definition sample_name (p : nat) : str := cp "f" ++ of_Z (Z.of_nat p) ++ cp ".xlsx".
Definition sample_suffix (p : nat) : str := cp ".xlsx".
Definition sample_load (w : unit) (p : nat) : result (list worksheet) :=
  if Nat.eqb p 2 then Raise (cp "File is not a zip file")
  else Ok [sample_sheet].
Definition sample_convert (w : unit) (p : nat) : unit * result nat :=
  (w, Ok p).

(* ================================================================= *)
(** ** The rest of the program: input files and [main] *)

(** The characters of a string that are not whitespace, in order. *)
Definition ink (s : str) : list char := filter (fun c => negb (isspace c)) s.

(** A second sample: row 12 has an equipment tag and nothing else, row 13 a
    how-to-lock text and no tag. *)
Definition merged_sheet : worksheet :=
  {| cell := lookup_cell
       [("B"%string, 11, VStr (cp "EQ-1"));
        ("M"%string, 11, VStr (cp "Valve A"));
        ("B"%string, 12, VStr (cp "EQ-2"));
        ("M"%string, 13, VStr (cp "Valve B"))];
     max_row := 13 |}.

(** The column lists of the eight fields. *)
Definition FIELD_COLS : list (list string) :=
  [COLS_EQUIP_TAG; COLS_EQUIP_DESC; COLS_FONTE_TAG; COLS_FONTE_DESC;
   COLS_COMO_BLOQUEAR; COLS_ONDE_BLOQUEAR; COLS_TIPO_BLOQUEIO;
   COLS_COMO_DESBLOQUEAR].

Definition ascii_only (s : str) : Prop := Forall (fun c => (c < 128)%N) s.

(** A worksheet with another last row. *)
Definition with_max_row (ws : worksheet) (n : nat) : worksheet :=
  {| cell := cell ws; max_row := n |}.

(** The file system as [list_input_files] and [main] see it: whether the
    input folder exists, what a recursive glob of it returns for a pattern,
    the order and the equality of paths, the creation of the output folders,
    the input folder and the text of a path. *)
Variable input_dir_exists : world -> bool.
Variable rglob : world -> str -> list path.
Variable path_leb : path -> path -> bool.
Variable path_eqb : path -> path -> bool.
Variable make_dirs : world -> world.
Variable INPUT_DIR : path.
Variable path_str : path -> str.

Definition PATTERNS : list str := [cp "*.xls"; cp "*.xlsx"; cp "*.xlsm"].

(** [name.startswith("~$")]: the lock file of an open workbook. *)
Definition is_lock_file (p : path) : bool := prefixb (cp "~$") (path_name p).

(** [set(files)], first occurrences kept. *)
Fixpoint dedup (l : list path) : list path :=
  match l with
  | [] => []
  | p :: l' =>
      if existsb (path_eqb p) (dedup l') then dedup l' else p :: dedup l'
  end.

Fixpoint insert_path (p : path) (l : list path) : list path :=
  match l with
  | [] => [p]
  | q :: l' => if path_leb p q then p :: l else q :: insert_path p l'
  end.

(** [sorted(...)] of paths that are pairwise different: the order of the
    result does not depend on the order of the argument. *)
Definition sorted (l : list path) : list path := fold_right insert_path [] l.

Definition list_input_files (w : world) : list path :=
  if negb (input_dir_exists w) then []
  else
    let files :=
      flat_map
        (fun pattern => filter (fun p => negb (is_lock_file p)) (rglob w pattern))
        PATTERNS in
    sorted (dedup files).

(** How [main] ends before it writes the output workbook: by [SystemExit],
    or with the accumulators of the per-file loop. *)
Inductive main_result : Type :=
| SystemExit (msg : str)
| Collected (w : world) (st : main_state).

Definition A_TILDE : char := 0xE3%N.

Definition main (w : world) : main_result :=
  if negb (input_dir_exists w) then
    SystemExit (cp "Pasta de entrada n" ++ [A_TILDE] ++ cp "o existe: "
                ++ path_str INPUT_DIR)
  else
    let w := make_dirs w in
    let files := list_input_files w in
    match files with
    | [] =>
        SystemExit (cp "Nenhum .xls/.xlsx/.xlsm encontrado em: "
                    ++ path_str INPUT_DIR)
    | _ =>
        let '(w', st) := main_loop w main_init files in
        Collected w' st
    end.

(** The suffix test of the per-file loop. *)
Definition is_xls (f : path) : bool :=
  Str.eqb (lower (path_suffix f)) (cp ".xls").

(** The conversions of a batch that succeeded, the world threaded through
    as the loop does. *)
Fixpoint conversions (w : world) (files : list path) : nat :=
  match files with
  | [] => 0
  | f :: files' =>
      (if is_xls f
       then match convert_xls_to_xlsx w f with
            | (_, Ok _) => 1
            | (_, Raise _) => 0
            end
       else 0)
      + conversions (fst (file_outcome w f)) files'
  end.

(** Sample file system: three workbooks and a lock file, found in no
    particular order; paths are numbers, ordered as numbers. *)
Definition sample_rglob (w : unit) (pattern : str) : list nat :=
  if Str.eqb pattern (cp "*.xlsx") then [3; 7; 1; 2] else [].
Definition sample_name' (p : nat) : str :=
  if Nat.eqb p 7 then cp "~$f1.xlsx" else sample_name p.

(** Whitespace of four kinds: a no-break space, a space, an em space and a
    tab. *)
Definition blank_text : str := [0xA0; 0x20; 0x2003; 0x09]%N.

(** The first sample with the word LAYOUT in a header row. *)
Definition header_sheet : worksheet :=
  {| cell := fun c r =>
       if (String.eqb c "A" && Nat.eqb r 5)%bool then VStr (cp "LAYOUT")
       else cell sample_sheet c r;
     max_row := max_row sample_sheet |}.

(** A batch with two legacy files: the conversion of file 5 times out. *)
Definition legacy_suffix (p : nat) : str :=
  if Nat.eqb p 4 then cp ".XLS"
  else if Nat.eqb p 5 then cp ".xls" else cp ".xlsx".
Definition legacy_convert (w : unit) (p : nat) : unit * result nat :=
  if Nat.eqb p 5 then (w, Raise (cp "Timeout convertendo .xls (> 40s)"))
  else (w, Ok p).

(* ================================================================= *)
(** ** Strings: equality, whitespace, trimming *)

Lemma str_eqb_eq (a b : str) : Str.eqb a b = true <-> a = b.
Proof.
  revert b; induction a as [|x a IH]; intros [|y b]; simpl; split;
    try congruence; try reflexivity.
  - intros H. apply andb_true_iff in H as [Hx Hab].
    apply N.eqb_eq in Hx. apply IH in Hab. congruence.
  - intros H. injection H as -> ->.
    rewrite N.eqb_refl. simpl. now apply IH.
Qed.

Lemma isspace_SP : isspace SP = true.
Proof. reflexivity. Qed.

Lemma has_ink_nonempty (s : str) : has_ink s = true -> s <> [].
Proof. destruct s; simpl; congruence. Qed.

Lemma has_ink_app (a b : str) : has_ink (a ++ b) = has_ink a || has_ink b.
Proof. apply existsb_app. Qed.

Lemma starts_clean_has_ink (s : str) :
  s <> [] -> starts_clean s = true -> has_ink s = true.
Proof.
  destruct s as [|c t]; [congruence|]. simpl. intros _ ->. reflexivity.
Qed.

(** Membership in a list that is written out. *)
Ltac in_list := simpl; repeat first [left; reflexivity | right].

(** *** [replace] of a line break by a space *)

Lemma replace_id (old new : char) (s : str) :
  ~ In old s -> replace old new s = s.
Proof.
  induction s as [|c t IH]; simpl; intros H; [reflexivity|].
  destruct (N.eqb_spec c old) as [->|_].
  - exfalso. apply H. now left.
  - f_equal. apply IH. intros Hin. apply H. now right.
Qed.

(** *** [collapse] *)

Lemma collapse_end (c : char) : isspace c = true -> collapse [c] = [SP].
Proof. intros H. simpl. now rewrite H. Qed.

Lemma collapse_run (c d : char) (t : str) :
  isspace c = true -> isspace d = true ->
  collapse (c :: d :: t) = collapse (d :: t).
Proof. intros Hc Hd. cbn [collapse]. now rewrite Hc, Hd. Qed.

Lemma collapse_gap (c d : char) (t : str) :
  isspace c = true -> isspace d = false ->
  collapse (c :: d :: t) = SP :: d :: collapse t.
Proof. intros Hc Hd. cbn [collapse]. now rewrite Hc, Hd. Qed.

Lemma collapse_ink (c : char) (t : str) :
  isspace c = false -> collapse (c :: t) = c :: collapse t.
Proof. intros H. cbn [collapse]. now rewrite H. Qed.

(** Induction following the cases of [collapse]. *)
Lemma collapse_cases (P : str -> str -> Prop) :
  P [] [] ->
  (forall c, isspace c = true -> P [c] [SP]) ->
  (forall c d t, isspace c = true -> isspace d = true ->
     P (d :: t) (collapse (d :: t)) -> P (c :: d :: t) (collapse (d :: t))) ->
  (forall c d t, isspace c = true -> isspace d = false ->
     P (d :: t) (d :: collapse t) -> P (c :: d :: t) (SP :: d :: collapse t)) ->
  (forall c t, isspace c = false ->
     P t (collapse t) -> P (c :: t) (c :: collapse t)) ->
  forall s, P s (collapse s).
Proof.
  intros H0 H1 H2 H3 H4. induction s as [|c t IH]; [exact H0|].
  destruct (isspace c) eqn:Hc.
  - destruct t as [|d t'].
    + rewrite collapse_end by assumption. now apply H1.
    + destruct (isspace d) eqn:Hd.
      * rewrite collapse_run by assumption. now apply H2.
      * rewrite collapse_gap by assumption. apply H3; try assumption.
        now rewrite collapse_ink in IH.
  - rewrite collapse_ink by assumption. now apply H4.
Qed.

Ltac collapse_induction s :=
  pattern s, (collapse s); apply collapse_cases; clear s.

Lemma starts_clean_collapse (s : str) :
  starts_clean (collapse s) = starts_clean s.
Proof.
  collapse_induction s; simpl; intros; rewrite ?isspace_SP; try congruence.
  all: repeat match goal with H : isspace _ = _ |- _ => rewrite H in * end;
    simpl in *; congruence.
Qed.

Lemma collapsed_collapse (s : str) : collapsed (collapse s) = true.
Proof.
  collapse_induction s; simpl; intros; rewrite ?isspace_SP; try congruence.
  all: repeat match goal with H : isspace _ = _ |- _ => rewrite H in * end;
    simpl in *; congruence.
Qed.

Lemma collapse_fixed (s : str) : collapsed s = true -> collapse s = s.
Proof.
  induction s as [|c t IH]; [reflexivity|].
  simpl collapsed. intros H. apply andb_true_iff in H as [Hc Ht].
  destruct (isspace c) eqn:Ec.
  - apply andb_true_iff in Hc as [Hsp Hst]. apply N.eqb_eq in Hsp. subst c.
    destruct t as [|d t']; [reflexivity|].
    simpl in Hst. apply negb_true_iff in Hst.
    rewrite collapse_gap by assumption.
    specialize (IH Ht). rewrite collapse_ink in IH by assumption.
    now rewrite IH.
  - rewrite collapse_ink by assumption. f_equal. now apply IH.
Qed.

Lemma collapsed_space (s : str) (c : char) :
  collapsed s = true -> In c s -> isspace c = true -> c = SP.
Proof.
  induction s as [|x t IH]; simpl; [intros _ []|].
  intros H [->|Hin] Hc; apply andb_true_iff in H as [Hx Ht].
  - rewrite Hc in Hx. apply andb_true_iff in Hx as [Hx _].
    now apply N.eqb_eq in Hx.
  - now apply IH.
Qed.

Lemma has_ink_collapse (s : str) : has_ink (collapse s) = has_ink s.
Proof.
  collapse_induction s; simpl; intros; rewrite ?isspace_SP; try congruence.
  all: repeat match goal with H : isspace _ = _ |- _ => rewrite H in * end;
    simpl in *; congruence.
Qed.

Lemma existsb_isspace_collapse (s : str) :
  existsb isspace (collapse s) = existsb isspace s.
Proof.
  collapse_induction s; simpl; intros; rewrite ?isspace_SP; try congruence.
  all: repeat match goal with H : isspace _ = _ |- _ => rewrite H in * end;
    simpl in *; congruence.
Qed.

(** *** [lstrip] and [rstrip] *)

Lemma lstrip_suffix (s : str) :
  exists w, s = w ++ lstrip s /\ forallb isspace w = true.
Proof.
  induction s as [|c t [w [Hw Hsp]]]; [now exists []|].
  simpl. destruct (isspace c) eqn:Hc.
  - exists (c :: w). simpl. rewrite Hc, Hsp. split; [congruence|reflexivity].
  - now exists [].
Qed.

Lemma rstrip_prefix (s : str) :
  exists w, s = rstrip s ++ w /\ forallb isspace w = true.
Proof.
  induction s as [|c t [w [Hw Hsp]]]; [now exists []|].
  simpl. destruct (rstrip t) as [|d t'] eqn:Ht.
  - destruct (isspace c) eqn:Hc.
    + exists (c :: w). simpl in *. rewrite Hc, Hsp. split; [congruence|reflexivity].
    + exists w. simpl in *. split; [congruence|assumption].
  - exists w. split; [|assumption]. simpl. f_equal. exact Hw.
Qed.

Lemma starts_clean_lstrip (s : str) : starts_clean (lstrip s) = true.
Proof.
  induction s as [|c t IH]; [reflexivity|].
  simpl. destruct (isspace c) eqn:Hc; [exact IH|]. simpl. now rewrite Hc.
Qed.

Lemma lstrip_fixed (s : str) : starts_clean s = true -> lstrip s = s.
Proof.
  destruct s as [|c t]; [reflexivity|]. simpl.
  intros H. apply negb_true_iff in H. now rewrite H.
Qed.

Lemma ends_clean_rstrip (s : str) : ends_clean (rstrip s) = true.
Proof.
  induction s as [|c t IH]; [reflexivity|].
  simpl. destruct (rstrip t) as [|d t'] eqn:Ht.
  - destruct (isspace c) eqn:Hc; [reflexivity|]. simpl. now rewrite Hc.
  - exact IH.
Qed.

Lemma rstrip_cons (c : char) (t : str) :
  rstrip (c :: t) =
  match rstrip t with
  | [] => if isspace c then [] else [c]
  | t' => c :: t'
  end.
Proof. reflexivity. Qed.

Lemma rstrip_fixed (s : str) : ends_clean s = true -> rstrip s = s.
Proof.
  induction s as [|c t IH]; [reflexivity|].
  destruct t as [|d t'].
  - simpl. intros H. apply negb_true_iff in H. now rewrite H.
  - intros H. change (ends_clean (d :: t') = true) in H.
    specialize (IH H). rewrite rstrip_cons, IH. reflexivity.
Qed.

Lemma rstrip_head (s : str) (d : char) (t' : str) :
  rstrip s = d :: t' -> exists t, s = d :: t.
Proof.
  destruct s as [|c t]; simpl; [discriminate|].
  destruct (rstrip t); [destruct (isspace c)|]; intros H;
    try discriminate; injection H as -> _; now exists t.
Qed.

Lemma starts_clean_rstrip (s : str) :
  starts_clean s = true -> starts_clean (rstrip s) = true.
Proof.
  destruct (rstrip s) as [|d t'] eqn:H; [reflexivity|].
  apply rstrip_head in H as [t ->]. simpl. intros Hc. exact Hc.
Qed.

Lemma collapsed_lstrip (s : str) :
  collapsed s = true -> collapsed (lstrip s) = true.
Proof.
  induction s as [|c t IH]; [reflexivity|].
  intros H. simpl lstrip. destruct (isspace c); [|exact H].
  simpl in H. apply andb_true_iff in H as [_ H]. now apply IH.
Qed.

Lemma collapsed_rstrip (s : str) :
  collapsed s = true -> collapsed (rstrip s) = true.
Proof.
  induction s as [|c t IH]; [reflexivity|].
  simpl. intros H. apply andb_true_iff in H as [Hc Ht].
  specialize (IH Ht).
  destruct (rstrip t) as [|d t'] eqn:E.
  - destruct (isspace c) eqn:Ec; [reflexivity|]. simpl. now rewrite Ec.
  - apply rstrip_head in E as E'. destruct E' as [t0 ->].
    simpl. simpl in IH. rewrite IH, andb_true_r.
    destruct (isspace c); [|reflexivity]. exact Hc.
Qed.

Lemma has_ink_lstrip (s : str) : has_ink (lstrip s) = has_ink s.
Proof.
  induction s as [|c t IH]; [reflexivity|].
  simpl. destruct (isspace c) eqn:Hc; simpl; [exact IH|]. now rewrite Hc.
Qed.

Lemma has_ink_rstrip (s : str) : has_ink (rstrip s) = has_ink s.
Proof.
  induction s as [|c t IH]; [reflexivity|].
  simpl. destruct (rstrip t) as [|d t'] eqn:E.
  - rewrite <- IH. simpl. destruct (isspace c) eqn:Hc; simpl; now rewrite ?Hc.
  - rewrite <- IH. reflexivity.
Qed.

Lemma has_ink_strip (s : str) : has_ink (strip s) = has_ink s.
Proof. unfold strip. now rewrite has_ink_rstrip, has_ink_lstrip. Qed.

(** *** Tidy strings *)

Lemma tidy_strip_collapse (s : str) : tidy (strip (collapse s)) = true.
Proof.
  unfold tidy, strip.
  rewrite collapsed_rstrip, starts_clean_rstrip, ends_clean_rstrip;
    auto using starts_clean_lstrip, collapsed_lstrip, collapsed_collapse.
Qed.

Lemma tidy_parts (s : str) :
  tidy s = true ->
  collapsed s = true /\ starts_clean s = true /\ ends_clean s = true.
Proof.
  unfold tidy. intros H.
  apply andb_true_iff in H as [H H3]. apply andb_true_iff in H as [H1 H2].
  auto.
Qed.

Lemma tidy_no_line_break (s : str) :
  tidy s = true -> ~ In LF s /\ ~ In CR s.
Proof.
  intros H. apply tidy_parts in H as [H _].
  split; intros Hin;
    discriminate (collapsed_space _ _ H Hin eq_refl).
Qed.

Lemma tidy_strip_collapse_fixed (s : str) :
  tidy s = true -> strip (collapse s) = s.
Proof.
  intros H. apply tidy_parts in H as (H1 & H2 & H3).
  unfold strip. rewrite collapse_fixed, lstrip_fixed, rstrip_fixed; auto.
Qed.

Lemma cleanup_tidy (s : str) : tidy (cleanup s) = true.
Proof. apply tidy_strip_collapse. Qed.

Lemma cleanup_fixed (s : str) : tidy s = true -> cleanup s = s.
Proof.
  intros H. unfold cleanup.
  destruct (tidy_no_line_break _ H) as [Hlf Hcr].
  rewrite (replace_id LF SP s Hlf), (replace_id CR SP s Hcr).
  now apply tidy_strip_collapse_fixed.
Qed.

Lemma ends_clean_snoc (t : str) (c : char) :
  ends_clean (t ++ [c]) = negb (isspace c).
Proof.
  induction t as [|x t IH]; [reflexivity|].
  simpl app. destruct (t ++ [c]) eqn:E; [now destruct t|exact IH].
Qed.

Lemma collapsed_app_r (a b : str) : collapsed (a ++ b) = true -> collapsed b = true.
Proof.
  induction a as [|x a IH]; [trivial|].
  simpl. intros H. apply andb_true_iff in H as [_ H]. now apply IH.
Qed.

Lemma tidy_Clean (s : str) : tidy s = true -> s <> [] -> Clean s.
Proof.
  intros H Hne. pose proof (tidy_no_line_break _ H) as Hnl.
  apply tidy_parts in H as (H1 & H2 & H3).
  split; auto.
  - intros c t ->. simpl in H2. now apply negb_true_iff.
  - intros c t ->. rewrite ends_clean_snoc in H3. now apply negb_true_iff.
  - intros a c d b -> Hc. apply collapsed_app_r in H1.
    simpl in H1. rewrite Hc in H1.
    apply andb_true_iff in H1 as [H1 _]. apply andb_true_iff in H1 as [_ H1].
    now apply negb_true_iff.
Qed.

(* ================================================================= *)
(** ** The cell normaliser *)

Lemma normalize_cell_unfold (v : value) :
  normalize_cell v =
  match v with
  | VNone => None
  | _ => match cleanup (render v) with
         | [] => None
         | c :: t =>
             if in_empty_tokens (lower (c :: t)) then None else Some (c :: t)
         end
  end.
Proof.
  destruct v; try reflexivity; unfold normalize_cell;
    destruct (cleanup _); reflexivity.
Qed.

Lemma normalize_cell_Some (v : value) (s : str) :
  normalize_cell v = Some s ->
  s = cleanup (render v) /\ s <> [] /\ in_empty_tokens (lower s) = false /\
  tidy s = true.
Proof.
  rewrite normalize_cell_unfold. intros H.
  assert (E : match cleanup (render v) with
              | [] => None
              | c :: t =>
                  if in_empty_tokens (lower (c :: t)) then None
                  else Some (c :: t)
              end = Some s) by (destruct v; [discriminate H|exact H..]).
  clear H. pose proof (cleanup_tidy (render v)) as Ht.
  destruct (cleanup (render v)) as [|c t] eqn:Ec; [discriminate E|].
  destruct (in_empty_tokens (lower (c :: t))) eqn:Etok; [discriminate E|].
  injection E as <-. repeat split; auto. discriminate.
Qed.

Lemma normalize_cell_clean_str (s : str) :
  tidy s = true -> s <> [] -> in_empty_tokens (lower s) = false ->
  normalize_cell (VStr s) = Some s.
Proof.
  intros Ht Hne Htok. rewrite normalize_cell_unfold.
  change (render (VStr s)) with s. rewrite (cleanup_fixed _ Ht).
  destruct s; [congruence|]. now rewrite Htok.
Qed.

Lemma normalize_cell_token_str (s : str) :
  tidy s = true -> in_empty_tokens (lower s) = true ->
  normalize_cell (VStr s) = None.
Proof.
  intros Ht Htok. rewrite normalize_cell_unfold.
  change (render (VStr s)) with s. rewrite (cleanup_fixed _ Ht).
  destruct s; [reflexivity|]. now rewrite Htok.
Qed.

Lemma normalize_cell_has_ink (v : value) (s : str) :
  normalize_cell v = Some s -> has_ink s = true.
Proof.
  intros H. apply normalize_cell_Some in H as (_ & Hne & _ & Ht).
  apply tidy_parts in Ht as (_ & Hs & _). now apply starts_clean_has_ink.
Qed.

(* ================================================================= *)
(** ** The field grouper *)

Lemma parts_fold (values : list value) (acc : list str) :
  fold_left
    (fun parts v =>
       match normalize_cell v with
       | Some nv => parts ++ [nv]
       | None => parts
       end)
    values acc
  = acc ++ flat_map keep_part values.
Proof.
  revert acc. induction values as [|v vs IH]; intros acc; simpl.
  - now rewrite app_nil_r.
  - rewrite IH. unfold keep_part. destruct (normalize_cell v); simpl.
    + now rewrite <- app_assoc.
    + reflexivity.
Qed.

Lemma surviving_flat_map (ws : worksheet) (row : nat) (cols : list string) :
  surviving ws row cols = flat_map keep_part (map (fun c => cell ws c row) cols).
Proof.
  unfold surviving. induction cols as [|c cols IH]; simpl; [reflexivity|].
  now rewrite IH.
Qed.

Lemma parts_have_ink (values : list value) (p : str) :
  In p (flat_map keep_part values) -> has_ink p = true.
Proof.
  intros H. apply in_flat_map in H as (v & _ & Hp).
  unfold keep_part in Hp. destruct (normalize_cell v) eqn:E; [|contradiction].
  destruct Hp as [->|[]]. eapply normalize_cell_has_ink; eauto.
Qed.

Lemma parts_normalized (values : list value) (p : str) :
  In p (flat_map keep_part values) -> exists v, In v values /\ normalize_cell v = Some p.
Proof.
  intros H. apply in_flat_map in H as (v & Hv & Hp).
  unfold keep_part in Hp. destruct (normalize_cell v) eqn:E; [|contradiction].
  destruct Hp as [->|[]]. eauto.
Qed.

Lemma join_cons2 (sep p q : str) (ps : list str) :
  join sep (p :: q :: ps) = p ++ sep ++ join sep (q :: ps).
Proof. reflexivity. Qed.

Lemma has_ink_join (sep : str) (parts : list str) :
  parts <> [] -> (forall p, In p parts -> has_ink p = true) ->
  has_ink (join sep parts) = true.
Proof.
  destruct parts as [|p ps]; [congruence|]. intros _ H.
  assert (Hp : has_ink p = true) by (apply H; now left).
  destruct ps as [|q ps]; [exact Hp|].
  rewrite join_cons2, has_ink_app, Hp. reflexivity.
Qed.

Lemma join_valid_parts (values : list value) (sep : str) :
  join_valid values sep =
  match flat_map keep_part values with
  | [] => None
  | parts => Some (strip (collapse (join sep parts)))
  end.
Proof.
  unfold join_valid. rewrite parts_fold. simpl app.
  destruct (flat_map keep_part values) as [|p ps] eqn:E; [reflexivity|].
  assert (Hink : has_ink (strip (collapse (join sep (p :: ps)))) = true).
  { rewrite has_ink_strip, has_ink_collapse. apply has_ink_join; [discriminate|].
    intros q Hq. apply (parts_have_ink values). now rewrite E. }
  destruct (strip (collapse (join sep (p :: ps)))); [discriminate|reflexivity].
Qed.

Lemma join_valid_Some (values : list value) (sep out : str) :
  join_valid values sep = Some out ->
  exists p ps, flat_map keep_part values = p :: ps /\
               out = strip (collapse (join sep (p :: ps))) /\
               tidy out = true /\ has_ink out = true.
Proof.
  rewrite join_valid_parts.
  destruct (flat_map keep_part values) as [|p ps] eqn:E; [discriminate|].
  intros H.
  assert (Hout : out = strip (collapse (join sep (p :: ps)))) by congruence.
  clear H. subst out. exists p, ps. repeat split.
  - apply tidy_strip_collapse.
  - rewrite has_ink_strip, has_ink_collapse. apply has_ink_join; [discriminate|].
    intros q Hq. apply (parts_have_ink values). now rewrite E.
Qed.

Lemma join_valid_None (values : list value) (sep : str) :
  join_valid values sep = None <->
  forall v, In v values -> normalize_cell v = None.
Proof.
  rewrite join_valid_parts. split.
  - destruct (flat_map keep_part values) as [|p ps] eqn:E; [|discriminate].
    intros _ v Hv. destruct (normalize_cell v) as [s|] eqn:En; [|reflexivity].
    assert (Hin : In s (flat_map keep_part values)).
    { apply in_flat_map. exists v. split; [assumption|].
      unfold keep_part. rewrite En. now left. }
    rewrite E in Hin. contradiction.
  - intros H. destruct (flat_map keep_part values) as [|p ps] eqn:E; [reflexivity|].
    destruct (parts_normalized values p) as (v & Hv & Hn).
    { rewrite E. now left. }
    rewrite (H v Hv) in Hn. discriminate.
Qed.

Lemma get_group_group_spec (ws : worksheet) (row : nat) (cols : list string)
  (sep : str) : get_group ws row cols sep = group_spec ws row cols sep.
Proof.
  unfold get_group, group_spec. rewrite join_valid_parts, surviving_flat_map.
  reflexivity.
Qed.

(* ================================================================= *)
(** ** Whitespace between the parts of a group *)

Lemma collapse_nonempty (s : str) : s <> [] -> collapse s <> [].
Proof.
  destruct s as [|c t]; [congruence|]. intros _.
  destruct (isspace c) eqn:Hc.
  - destruct t as [|d t'].
    + now rewrite collapse_end.
    + destruct (isspace d) eqn:Hd.
      * rewrite collapse_run by assumption. intros E.
        assert (H : existsb isspace (collapse (d :: t')) = true).
        { rewrite existsb_isspace_collapse. simpl. now rewrite Hd. }
        rewrite E in H. discriminate.
      * now rewrite collapse_gap.
  - now rewrite collapse_ink.
Qed.

Lemma lstrip_collapse (s : str) : lstrip (collapse s) = collapse (lstrip s).
Proof.
  collapse_induction s.
  - reflexivity.
  - intros c Hc. simpl. now rewrite Hc.
  - intros c d t Hc Hd IH. rewrite IH. simpl lstrip. now rewrite Hc.
  - intros c d t Hc Hd IH.
    change (lstrip (SP :: d :: collapse t)) with (lstrip (d :: collapse t)).
    rewrite IH. simpl lstrip. now rewrite Hc.
  - intros c t Hc _. simpl lstrip. rewrite Hc. now rewrite collapse_ink.
Qed.

Lemma rstrip_ink_head (d : char) (t : str) :
  isspace d = false -> exists t', rstrip (d :: t) = d :: t'.
Proof.
  intros Hd. rewrite rstrip_cons. destruct (rstrip t) as [|x t'].
  - rewrite Hd. now exists [].
  - now exists (x :: t').
Qed.

Lemma rstrip_collapse (s : str) : rstrip (collapse s) = collapse (rstrip s).
Proof.
  collapse_induction s.
  - reflexivity.
  - intros c Hc. simpl. now rewrite Hc.
  - intros c d t Hc Hd IH. rewrite IH.
    rewrite (rstrip_cons c). destruct (rstrip (d :: t)) as [|x t'] eqn:E.
    + now rewrite Hc.
    + apply rstrip_head in E as E'. destruct E' as [t0 E']. injection E' as -> _.
      now rewrite collapse_run.
  - intros c d t Hc Hd IH.
    destruct (rstrip_ink_head d t Hd) as [t' E].
    rewrite (rstrip_cons SP), IH, (rstrip_cons c), E.
    rewrite collapse_ink by assumption.
    rewrite collapse_gap by assumption. reflexivity.
  - intros c t Hc IH.
    rewrite (rstrip_cons c (collapse t)), IH, (rstrip_cons c t).
    destruct (rstrip t) as [|x t'] eqn:E.
    + simpl. rewrite Hc. now rewrite collapse_ink.
    + pose proof (collapse_nonempty (x :: t')) as Hne.
      rewrite (collapse_ink c (x :: t')) by assumption.
      destruct (collapse (x :: t')) as [|y u].
      * exfalso. now apply Hne.
      * reflexivity.
Qed.

Lemma strip_collapse (s : str) : strip (collapse s) = collapse (strip s).
Proof. unfold strip. now rewrite lstrip_collapse, rstrip_collapse. Qed.

Lemma lstrip_app_ink (a x : str) :
  has_ink a = true -> lstrip (a ++ x) = lstrip a ++ x.
Proof.
  induction a as [|c a IH]; simpl; [discriminate|].
  destruct (isspace c); simpl; auto.
Qed.

Lemma rstrip_app_ink (x b : str) :
  has_ink b = true -> rstrip (x ++ b) = x ++ rstrip b.
Proof.
  intros Hb. induction x as [|c x IH]; [reflexivity|].
  simpl app. rewrite rstrip_cons, IH.
  assert (Hne : rstrip b <> []).
  { apply has_ink_nonempty. now rewrite has_ink_rstrip. }
  destruct (x ++ rstrip b) eqn:E; [|reflexivity].
  apply app_eq_nil in E as [_ E]. contradiction.
Qed.

Lemma strip_collapse_gap (a b : str) (w : char) :
  has_ink a = true -> isspace w = true -> has_ink b = true ->
  In SP (strip (collapse (a ++ w :: b))).
Proof.
  intros Ha Hw Hb.
  assert (Hsp : existsb isspace (strip (collapse (a ++ w :: b))) = true).
  { rewrite strip_collapse, existsb_isspace_collapse. unfold strip.
    rewrite lstrip_app_ink by assumption.
    change (lstrip a ++ w :: b) with (lstrip a ++ [w] ++ b).
    rewrite app_assoc, rstrip_app_ink by assumption.
    rewrite !existsb_app. simpl. rewrite Hw.
    now rewrite orb_true_r. }
  apply existsb_exists in Hsp as (c & Hin & Hc).
  pose proof (tidy_strip_collapse (a ++ w :: b)) as Ht.
  apply tidy_parts in Ht as (Hcol & _).
  now rewrite <- (collapsed_space _ _ Hcol Hin Hc).
Qed.

Lemma join_gap (sep p q : str) (ps : list str) :
  existsb isspace sep = true ->
  (forall x, In x (p :: q :: ps) -> has_ink x = true) ->
  In SP (strip (collapse (join sep (p :: q :: ps)))).
Proof.
  intros Hsep Hink.
  apply existsb_exists in Hsep as (w & Hin & Hw).
  apply in_split in Hin as (s1 & s2 & ->).
  rewrite join_cons2.
  replace (p ++ (s1 ++ w :: s2) ++ join (s1 ++ w :: s2) (q :: ps))
    with ((p ++ s1) ++ w :: (s2 ++ join (s1 ++ w :: s2) (q :: ps)))
    by (now rewrite <- !app_assoc).
  apply strip_collapse_gap; [|assumption|].
  - rewrite has_ink_app, Hink; [reflexivity|now left].
  - rewrite has_ink_app, has_ink_join, orb_true_r; [reflexivity|discriminate|].
    intros x Hx. apply Hink. now right.
Qed.

(* ================================================================= *)
(** ** The sentinel set and letter case *)

Lemma in_empty_tokens_In (s : str) :
  in_empty_tokens s = true <-> In s EMPTY_TOKENS.
Proof.
  unfold in_empty_tokens. rewrite existsb_exists. split.
  - intros (t & Hin & E). apply str_eqb_eq in E. now subst.
  - intros H. exists s. split; [assumption|]. now apply str_eqb_eq.
Qed.

Lemma isspace_iff (c : char) :
  isspace c = true <->
  (9 <= c <= 13 \/ 28 <= c <= 32 \/ c = 133 \/ c = 160 \/ c = 5760 \/
   8192 <= c <= 8202 \/ c = 8232 \/ c = 8233 \/ c = 8239 \/ c = 8287 \/
   c = 12288)%N.
Proof.
  unfold isspace.
  rewrite !orb_true_iff, !andb_true_iff, !N.leb_le, !N.eqb_eq. lia.
Qed.

Lemma isspace_ascii_lower_char (c : char) :
  isspace (ascii_lower_char c) = isspace c.
Proof.
  unfold ascii_lower_char.
  destruct ((65 <=? c) && (c <=? 90))%N eqn:E; [|reflexivity].
  apply andb_true_iff in E as [E1 E2]. apply N.leb_le in E1, E2.
  transitivity false; [|symmetry]; apply not_true_is_false;
    rewrite isspace_iff; lia.
Qed.

Lemma plain_char_ascii_lower_char (c : char) :
  plain_char (ascii_lower_char c) -> plain_char c.
Proof.
  unfold ascii_lower_char, plain_char.
  destruct ((65 <=? c) && (c <=? 90))%N eqn:E; [|trivial].
  apply andb_true_iff in E as [E1 E2]. apply N.leb_le in E1, E2.
  intros _. left. lia.
Qed.

Lemma no_space_tidy (s : str) :
  forallb (fun c => negb (isspace c)) s = true -> tidy s = true.
Proof.
  intros H. unfold tidy.
  assert (H1 : collapsed s = true).
  { induction s as [|c t IH]; [reflexivity|]. simpl in *.
    apply andb_true_iff in H as [Hc Ht]. apply negb_true_iff in Hc.
    rewrite Hc. now apply IH. }
  assert (H2 : starts_clean s = true).
  { destruct s; [reflexivity|]. simpl in *. now apply andb_true_iff in H as [? _]. }
  assert (H3 : ends_clean s = true).
  { induction s as [|c t IH]; [reflexivity|]. simpl in H.
    apply andb_true_iff in H as [Hc Ht].
    destruct t as [|d t']; [exact Hc|].
    change (ends_clean (d :: t') = true). apply IH; auto.
    - simpl in H1. now apply andb_true_iff in H1 as [_ ?].
    - simpl in Ht. simpl. now apply andb_true_iff in Ht as [? _]. }
  now rewrite H1, H2, H3.
Qed.

Lemma plain_forallb (s : str) :
  forallb plain_charb s = true -> Forall plain_char s.
Proof.
  intros H. apply Forall_forall. intros c Hc.
  rewrite forallb_forall in H. specialize (H c Hc).
  unfold plain_charb in H. unfold plain_char.
  rewrite !orb_true_iff, N.ltb_lt, !N.eqb_eq in H.
  destruct H as [[H|H]|H]; auto.
Qed.

Lemma token_shape (t : str) :
  In t EMPTY_TOKENS ->
  forallb (fun c => negb (isspace c)) t = true /\ Forall plain_char t /\
  t <> [].
Proof.
  unfold EMPTY_TOKENS. simpl.
  intros H; repeat destruct H as [H|H]; try contradiction; subst t;
    (split; [reflexivity|split; [|discriminate]]);
    apply plain_forallb; reflexivity.
Qed.

Lemma case_variant_shape (s t : str) :
  case_variant s t -> In t EMPTY_TOKENS ->
  tidy s = true /\ s <> [] /\ Forall plain_char s.
Proof.
  unfold case_variant. intros <- Hin.
  apply token_shape in Hin as (Hsp & Hpl & Hne).
  split; [|split].
  - apply no_space_tidy. unfold ascii_lower in Hsp.
    rewrite forallb_forall in *. intros c Hc.
    rewrite <- isspace_ascii_lower_char. apply Hsp. now apply in_map.
  - intros ->. now apply Hne.
  - unfold ascii_lower in Hpl. rewrite Forall_forall in *. intros c Hc.
    apply plain_char_ascii_lower_char. apply Hpl. now apply in_map.
Qed.

Lemma token_no_space (t : str) : In t EMPTY_TOKENS -> ~ In SP t.
Proof.
  unfold EMPTY_TOKENS. simpl.
  intros H; repeat destruct H as [H|H]; try contradiction; subst t;
    simpl; intros Hin; repeat destruct Hin as [Hin|Hin];
    try contradiction; discriminate Hin.
Qed.

(* ================================================================= *)
(** ** The row classifier *)

Lemma relevant_cols (cols : list string) :
  In cols [COLS_EQUIP_TAG; COLS_EQUIP_DESC; COLS_FONTE_TAG; COLS_FONTE_DESC;
           COLS_COMO_BLOQUEAR; COLS_ONDE_BLOQUEAR; COLS_TIPO_BLOQUEIO;
           COLS_COMO_DESBLOQUEAR] ->
  incl cols ALL_RELEVANT_COLS.
Proof.
  intros H c Hc. simpl in H.
  repeat destruct H as [H|H]; try contradiction; subst cols; simpl in Hc;
    repeat destruct Hc as [Hc|Hc]; try contradiction; subst c;
    unfold ALL_RELEVANT_COLS; in_list.
Qed.

(** [ALL_RELEVANT_COLS] has the columns of the eight field lists and no
    other. *)
Lemma all_relevant_cols_union (c : string) :
  In c ALL_RELEVANT_COLS <->
  In c (COLS_EQUIP_TAG ++ COLS_EQUIP_DESC ++ COLS_FONTE_TAG ++ COLS_FONTE_DESC
        ++ COLS_COMO_BLOQUEAR ++ COLS_ONDE_BLOQUEAR ++ COLS_TIPO_BLOQUEIO
        ++ COLS_COMO_DESBLOQUEAR).
Proof.
  unfold ALL_RELEVANT_COLS. simpl. split; intros H;
    repeat destruct H as [H|H]; try contradiction; subst c; in_list.
Qed.

Lemma no_data_no_cell (ws : worksheet) (r : nat) (c : string) :
  row_has_any_data ws r = false -> In c ALL_RELEVANT_COLS ->
  normalize_cell (cell ws c r) = None.
Proof.
  unfold row_has_any_data. intros H Hc.
  destruct (normalize_cell (cell ws c r)) eqn:E; [|reflexivity].
  assert (Ht : existsb (fun c => isSome (normalize_cell (cell ws c r)))
                 ALL_RELEVANT_COLS = true).
  { apply existsb_exists. exists c. split; [assumption|]. now rewrite E. }
  congruence.
Qed.

Lemma no_data_no_group (ws : worksheet) (r : nat) (cols : list string)
  (sep : str) :
  row_has_any_data ws r = false -> incl cols ALL_RELEVANT_COLS ->
  get_group ws r cols sep = None.
Proof.
  intros H Hincl. unfold get_group. apply join_valid_None.
  intros v Hv. apply in_map_iff in Hv as (c & <- & Hc).
  apply no_data_no_cell; auto.
Qed.

Lemma group_has_data (ws : worksheet) (r : nat) (cols : list string)
  (sep : str) :
  incl cols ALL_RELEVANT_COLS -> isSome (get_group ws r cols sep) = true ->
  row_has_any_data ws r = true.
Proof.
  intros Hincl H. destruct (row_has_any_data ws r) eqn:E; [reflexivity|].
  now rewrite (no_data_no_group ws r cols sep E Hincl) in H.
Qed.

Lemma no_data_no_source_info (ws : worksheet) (r : nat) :
  row_has_any_data ws r = false -> row_has_source_info ws r = false.
Proof.
  intros H. unfold row_has_source_info, source_groups. simpl.
  rewrite !(no_data_no_group ws r _ [SP] H); [reflexivity|..];
    apply relevant_cols; in_list.
Qed.

(* ================================================================= *)
(** ** The worksheet loop *)

Lemma fill_down_carry (ws : worksheet) (cols : list string)
  (last : option str) (q : nat) :
  fill_down last (get_group ws q cols [SP]) =
  (carry ws cols last q, carry ws cols last q).
Proof. unfold fill_down, carry. now destruct (get_group ws q cols [SP]). Qed.

Lemma record_from_start (ws : worksheet) (src : str) (start q : nat) :
  record_from ws src None None start q = record_at ws src start q.
Proof. reflexivity. Qed.

Lemma row_step_cases (ws : worksheet) (src : str) (r : nat)
  (lt ld : option str) :
  row_step ws src r lt ld =
  if row_has_footer_marker ws r then Break
  else
    Continue (carry ws COLS_EQUIP_TAG lt r) (carry ws COLS_EQUIP_DESC ld r)
      (if row_has_source_info ws r
       then Some (record_from ws src lt ld r r) else None).
Proof.
  unfold row_step. destruct (row_has_footer_marker ws r); [reflexivity|].
  destruct (row_has_any_data ws r) eqn:Hd; simpl.
  - rewrite !fill_down_carry.
    unfold record_from. replace (r + 1 - r) with 1 by lia. simpl.
    match goal with
    | |- (if negb (has_source_info ?rec) then _ else _) = _ =>
        change (has_source_info rec) with (row_has_source_info ws r)
    end.
    now destruct (row_has_source_info ws r).
  - rewrite (no_data_no_source_info ws r Hd). unfold carry.
    rewrite !(no_data_no_group ws r _ [SP] Hd); [reflexivity|..];
      apply relevant_cols; in_list.
Qed.

Lemma rows_loop_traced_acc (ws : worksheet) (src : str) (rows : list nat)
  (lt ld : option str) (acc : list (nat * record)) :
  rows_loop_traced ws src rows lt ld acc =
  acc ++ rows_loop_traced ws src rows lt ld [].
Proof.
  revert lt ld acc. induction rows as [|r rows IH]; intros lt ld acc; simpl.
  - now rewrite app_nil_r.
  - destruct (row_step ws src r lt ld) as [|lt' ld' [rec|]].
    + now rewrite app_nil_r.
    + rewrite (IH lt' ld' (acc ++ [(r, rec)])), (IH lt' ld' [(r, rec)]).
      now rewrite <- app_assoc.
    + apply IH.
Qed.

Lemma rows_loop_erase (ws : worksheet) (src : str) (rows : list nat)
  (lt ld : option str) (acc : list (nat * record)) :
  rows_loop ws src rows lt ld (map snd acc) =
  map snd (rows_loop_traced ws src rows lt ld acc).
Proof.
  revert lt ld acc. induction rows as [|r rows IH]; intros lt ld acc; simpl.
  - reflexivity.
  - destruct (row_step ws src r lt ld) as [|lt' ld' [rec|]].
    + reflexivity.
    + rewrite <- IH. now rewrite map_app.
    + apply IH.
Qed.

Lemma extract_erase (ws : worksheet) (src : str) (start : nat) :
  extract ws src start = map snd (extract_traced ws src start).
Proof. unfold extract, extract_traced. now rewrite <- rows_loop_erase. Qed.

Lemma rows_loop_before_footer (ws : worksheet) (src : str) (rows : list nat)
  (lt ld : option str) (acc : list (nat * record)) :
  rows_loop_traced ws src rows lt ld acc =
  rows_loop_traced ws src (before_footer ws rows) lt ld acc.
Proof.
  revert lt ld acc. induction rows as [|r rows IH]; intros lt ld acc; simpl.
  - reflexivity.
  - rewrite row_step_cases.
    destruct (row_has_footer_marker ws r) eqn:Hf; [reflexivity|].
    simpl. rewrite row_step_cases, Hf.
    destruct (row_has_source_info ws r); apply IH.
Qed.

Lemma fold_carry_cons (ws : worksheet) (cols : list string)
  (last : option str) (a q : nat) :
  a < q ->
  fold_left (carry ws cols) (seq a (q + 1 - a)) last =
  fold_left (carry ws cols) (seq (S a) (q + 1 - S a)) (carry ws cols last a).
Proof.
  intros H. replace (q + 1 - a) with (S (q + 1 - S a)) by lia. reflexivity.
Qed.

Lemma rows_loop_seq (ws : worksheet) (src : str) (n a : nat)
  (lt ld : option str) :
  (forall q, In q (seq a n) -> row_has_footer_marker ws q = false) ->
  rows_loop_traced ws src (seq a n) lt ld [] =
  map (fun q => (q, record_from ws src lt ld a q))
    (filter (row_has_source_info ws) (seq a n)).
Proof.
  revert a lt ld. induction n as [|n IH]; intros a lt ld Hf; [reflexivity|].
  simpl seq. simpl rows_loop_traced. rewrite row_step_cases.
  rewrite (Hf a) by (simpl; now left).
  assert (Hf' : forall q, In q (seq (S a) n) -> row_has_footer_marker ws q = false).
  { intros q Hq. apply Hf. simpl. now right. }
  assert (Hrest :
    map (fun q => (q, record_from ws src lt ld a q))
      (filter (row_has_source_info ws) (seq (S a) n)) =
    map (fun q => (q, record_from ws src (carry ws COLS_EQUIP_TAG lt a)
                        (carry ws COLS_EQUIP_DESC ld a) (S a) q))
      (filter (row_has_source_info ws) (seq (S a) n))).
  { apply map_ext_in. intros q Hq. apply filter_In in Hq as [Hq _].
    apply in_seq in Hq. unfold record_from.
    rewrite !(fold_carry_cons ws _ _ a q) by lia. reflexivity. }
  simpl filter. destruct (row_has_source_info ws a).
  - rewrite rows_loop_traced_acc, IH by assumption.
    simpl. now rewrite Hrest.
  - rewrite IH by assumption. now rewrite Hrest.
Qed.

Lemma before_footer_seq (ws : worksheet) (n a : nat) :
  exists m, m <= n /\ before_footer ws (seq a n) = seq a m /\
    (forall q, In q (seq a m) -> row_has_footer_marker ws q = false) /\
    (m < n -> row_has_footer_marker ws (a + m) = true).
Proof.
  revert a. induction n as [|n IH]; intros a.
  - exists 0. simpl. repeat split; [lia|contradiction|lia].
  - simpl. destruct (row_has_footer_marker ws a) eqn:Hf.
    + exists 0. simpl. rewrite Nat.add_0_r.
      repeat split; [lia|contradiction|auto].
    + destruct (IH (S a)) as (m & Hm & E & Hno & Hstop).
      exists (S m). simpl. rewrite E. repeat split; [lia| |].
      * intros q [<-|Hq]; auto.
      * intros Hlt. replace (a + S m) with (S a + m) by lia.
        apply Hstop. lia.
Qed.

Lemma before_footer_no_footer (ws : worksheet) (rows : list nat) (q : nat) :
  In q (before_footer ws rows) ->
  In q rows /\ row_has_footer_marker ws q = false.
Proof.
  induction rows as [|r rows IH]; simpl; [intros []|].
  destruct (row_has_footer_marker ws r) eqn:Hf; simpl; [intros []|].
  intros [<-|H]; [auto|]. destruct (IH H). auto.
Qed.

(** The loop of [process_workbook], in closed form: the rows before the
    footer that have source information, each with its record. *)
Lemma extract_traced_closed (ws : worksheet) (src : str) (start : nat) :
  extract_traced ws src start =
  map (fun q => (q, record_at ws src start q))
    (filter (row_has_source_info ws)
       (before_footer ws (sheet_rows start ws))).
Proof.
  unfold extract_traced. rewrite rows_loop_before_footer.
  unfold sheet_rows.
  destruct (before_footer_seq ws
              ((if Nat.eqb (max_row ws) 0 then start else max_row ws) + 1 - start)
              start) as (m & _ & -> & Hno & _).
  rewrite rows_loop_seq by assumption. reflexivity.
Qed.

(* ================================================================= *)
(** ** Substrings and the footer test *)

Lemma prefixb_iff (k s : str) : prefixb k s = true <-> exists b, s = k ++ b.
Proof.
  revert s. induction k as [|x k IH]; intros s; simpl.
  - split; [now exists s|reflexivity].
  - destruct s as [|y s].
    + split; [discriminate|]. intros [b Hb]. discriminate Hb.
    + rewrite andb_true_iff, N.eqb_eq, IH. split.
      * intros [-> [b ->]]. now exists b.
      * intros [b Hb]. injection Hb as -> ->. eauto.
Qed.

Lemma contains_iff (s k : str) :
  contains s k = true <-> exists a b, s = a ++ k ++ b.
Proof.
  induction s as [|c t IH].
  - simpl. rewrite prefixb_iff. split.
    + intros [b Hb]. now exists [], b.
    + intros (a & b & H). symmetry in H.
      apply app_eq_nil in H as [_ H]. apply app_eq_nil in H as [-> ->].
      now exists [].
  - cbn [contains]. rewrite orb_true_iff, prefixb_iff, IH. split.
    + intros [[b Hb]|(a & b & ->)].
      * now exists [], b.
      * now exists (c :: a), b.
    + intros ([|x a] & b & H).
      * left. now exists b.
      * right. injection H as -> ->. now exists a, b.
Qed.

Lemma contains_app_l (a b k : str) :
  contains a k = true -> contains (a ++ b) k = true.
Proof.
  rewrite !contains_iff. intros (x & y & ->). exists x, (y ++ b).
  now rewrite <- !app_assoc.
Qed.

Lemma contains_app_r (a b k : str) :
  contains b k = true -> contains (a ++ b) k = true.
Proof.
  rewrite !contains_iff. intros (x & y & ->). exists (a ++ x), y.
  now rewrite <- !app_assoc.
Qed.

(** An occurrence of [k] cannot straddle a character that [k] lacks. *)
Lemma contains_split (a b k : str) (c : char) :
  ~ In c k -> contains (a ++ c :: b) k = true ->
  contains a k = true \/ contains b k = true.
Proof.
  intros Hc. rewrite !contains_iff. intros (x & y & H).
  rewrite app_assoc in H. apply app_eq_app in H as [l [[H1 H2]|[H1 H2]]].
  - left. exists x, l. rewrite H1. now rewrite <- app_assoc.
  - destruct l as [|d l].
    + rewrite app_nil_r in H1. left. exists x, [].
      now rewrite app_nil_r.
    + injection H2 as <- ->.
      apply app_eq_app in H1 as [l2 [[H3 H4]|[H3 H4]]].
      * destruct l2 as [|e l2].
        -- exfalso. apply Hc. simpl in H4. rewrite <- H4. now left.
        -- injection H4 as <- ->. right. exists l2, y.
           now rewrite <- app_assoc.
      * exfalso. apply Hc. rewrite H4. apply in_or_app. right. now left.
Qed.

Lemma contains_join_intro (sep t k : str) (texts : list str) :
  In t texts -> contains t k = true -> contains (join sep texts) k = true.
Proof.
  induction texts as [|p ps IH]; [contradiction|].
  intros Hin Hk. destruct ps as [|q ps].
  - destruct Hin as [->|[]]. exact Hk.
  - rewrite join_cons2. destruct Hin as [->|Hin].
    + now apply contains_app_l.
    + apply contains_app_r, contains_app_r. now apply IH.
Qed.

Lemma join_bar_cons (p q : str) (ps : list str) :
  join (cp " | ") (p :: q :: ps) =
  p ++ SP :: ([] ++ BAR :: ([] ++ SP :: join (cp " | ") (q :: ps))).
Proof. reflexivity. Qed.

Lemma contains_nil_inv (k : str) : contains [] k = true -> k = [].
Proof.
  simpl. rewrite prefixb_iff. intros [b Hb]. symmetry in Hb.
  now apply app_eq_nil in Hb as [-> _].
Qed.

Lemma contains_join_bar (k : str) (texts : list str) :
  k <> [] -> ~ In SP k -> ~ In BAR k ->
  contains (join (cp " | ") texts) k = true ->
  exists t, In t texts /\ contains t k = true.
Proof.
  intros Hne Hsp Hbar. induction texts as [|p ps IH].
  - intros H. apply contains_nil_inv in H. contradiction.
  - destruct ps as [|q ps].
    + intros H. exists p. split; [now left|assumption].
    + rewrite join_bar_cons. intros H.
      apply (contains_split _ _ _ _ Hsp) in H as [H|H].
      * exists p. split; [now left|assumption].
      * apply (contains_split _ _ _ _ Hbar) in H as [H|H].
        -- apply contains_nil_inv in H. contradiction.
        -- apply (contains_split _ _ _ _ Hsp) in H as [H|H].
           ++ apply contains_nil_inv in H. contradiction.
           ++ destruct (IH H) as (t & Ht & Hk).
              exists t. split; [now right|assumption].
Qed.

Lemma keyword_shape (k : str) :
  In k FOOTER_KEYWORDS -> k <> [] /\ ~ In SP k /\ ~ In BAR k.
Proof.
  unfold FOOTER_KEYWORDS. simpl.
  intros H; repeat destruct H as [H|H]; try contradiction; subst k;
    (split; [discriminate|split]); simpl; intros Hin;
    repeat destruct Hin as [Hin|Hin]; try contradiction; discriminate Hin.
Qed.

Lemma texts_fold (ws : worksheet) (row : nat) (cols : list string)
  (acc : list str) :
  fold_left
    (fun texts c =>
       match normalize_cell (cell ws c row) with
       | Some ((_ :: _) as v) => texts ++ [upper v]
       | _ => texts
       end)
    cols acc
  = acc ++ flat_map (marker_text ws row) cols.
Proof.
  revert acc. induction cols as [|c cols IH]; intros acc; simpl.
  - now rewrite app_nil_r.
  - rewrite IH. unfold marker_text.
    destruct (normalize_cell (cell ws c row)) as [[|x v]|]; simpl;
      try reflexivity.
    now rewrite <- app_assoc.
Qed.

Lemma marker_text_In (ws : worksheet) (row : nat) (t : str) :
  In t (flat_map (marker_text ws row) FOOTER_CHECK_COLS) <->
  exists c s, In c FOOTER_CHECK_COLS /\
              normalize_cell (cell ws c row) = Some s /\ t = upper s.
Proof.
  rewrite in_flat_map. split.
  - intros (c & Hc & Ht). unfold marker_text in Ht.
    destruct (normalize_cell (cell ws c row)) as [[|x v]|] eqn:E;
      try contradiction.
    destruct Ht as [<-|[]]. exists c, (x :: v). auto.
  - intros (c & s & Hc & Hn & ->). exists c. split; [assumption|].
    unfold marker_text. rewrite Hn.
    apply normalize_cell_Some in Hn as (_ & Hne & _).
    destruct s; [congruence|now left].
Qed.

Lemma row_has_footer_marker_texts (ws : worksheet) (row : nat) :
  row_has_footer_marker ws row =
  match flat_map (marker_text ws row) FOOTER_CHECK_COLS with
  | [] => false
  | texts => existsb (fun k => contains (join (cp " | ") texts) k) FOOTER_KEYWORDS
  end.
Proof.
  unfold row_has_footer_marker. rewrite texts_fold, app_nil_l.
  now destruct (flat_map (marker_text ws row) FOOTER_CHECK_COLS).
Qed.

Lemma row_has_footer_marker_spec (ws : worksheet) (row : nat) :
  row_has_footer_marker ws row = true <-> footer_spec ws row.
Proof.
  rewrite row_has_footer_marker_texts. unfold footer_spec.
  destruct (flat_map (marker_text ws row) FOOTER_CHECK_COLS) as [|t0 ts] eqn:E.
  - split; [intros H; discriminate H|]. intros (c & s & k & Hc & Hn & _).
    assert (Hin : In (upper s) (flat_map (marker_text ws row) FOOTER_CHECK_COLS)).
    { apply marker_text_In. eauto. }
    rewrite E in Hin. contradiction.
  - rewrite existsb_exists. split.
    + intros (k & Hk & Hcont).
      destruct (keyword_shape k Hk) as (Hne & Hsp & Hbar).
      apply contains_join_bar in Hcont as (t & Ht & Htk); auto.
      rewrite <- E in Ht. apply marker_text_In in Ht as (c & s & Hc & Hn & ->).
      exists c, s, k. auto.
    + intros (c & s & k & Hc & Hn & Hk & Hcont). exists k. split; [assumption|].
      apply contains_join_intro with (t := upper s); [|assumption].
      rewrite <- E. apply marker_text_In. eauto.
Qed.

(* ================================================================= *)
(** ** Fill-down over a range of rows *)

Lemma fold_carry_spec (ws : worksheet) (cols : list string) (a n : nat)
  (init : option str) :
  (fold_left (carry ws cols) (seq a n) init = init /\
   forall q, In q (seq a n) -> get_group ws q cols [SP] = None)
  \/
  (exists q v, In q (seq a n) /\ get_group ws q cols [SP] = Some v /\
     (forall q', In q' (seq a n) -> q < q' -> get_group ws q' cols [SP] = None) /\
     fold_left (carry ws cols) (seq a n) init = Some v).
Proof.
  induction n as [|n IH].
  - left. simpl. split; [reflexivity|contradiction].
  - rewrite seq_S, fold_left_app. simpl fold_left.
    unfold carry at 1 3.
    destruct (get_group ws (a + n) cols [SP]) as [v|] eqn:E.
    + right. exists (a + n), v. repeat split; auto.
      * apply in_or_app. right. now left.
      * intros q' Hq' Hlt. apply in_app_or in Hq' as [Hq'|[<-|[]]]; [|lia].
        apply in_seq in Hq'. lia.
    + destruct IH as [[Hr Hnone]|(q & v & Hq & Hv & Hlater & Hr)].
      * left. split; [assumption|].
        intros q Hq. apply in_app_or in Hq as [Hq|[<-|[]]]; auto.
      * right. exists q, v. repeat split; auto.
        -- apply in_or_app. now left.
        -- intros q' Hq' Hlt. apply in_app_or in Hq' as [Hq'|[<-|[]]]; auto.
Qed.

(* ================================================================= *)
(** ** Row order *)

Lemma StronglySorted_seq (a n : nat) : StronglySorted lt (seq a n).
Proof.
  revert a. induction n as [|n IH]; intros a; simpl; constructor.
  - apply IH.
  - apply Forall_forall. intros q Hq. apply in_seq in Hq. lia.
Qed.

Lemma StronglySorted_filter_lt (p : nat -> bool) (l : list nat) :
  StronglySorted lt l -> StronglySorted lt (filter p l).
Proof.
  induction 1 as [|x l Hs IH Hall]; simpl; [constructor|].
  destruct (p x); [|assumption]. constructor; [assumption|].
  rewrite Forall_forall in *. intros q Hq. apply Hall.
  now apply filter_In in Hq as [? _].
Qed.

Lemma map_fst_pair {A : Type} (f : nat -> A) (l : list nat) :
  map fst (map (fun q => (q, f q)) l) = l.
Proof. induction l as [|x l IH]; simpl; [reflexivity|now rewrite IH]. Qed.

(* ================================================================= *)
(** ** The per-file loop *)

Lemma main_step_outcome (w : world) (st : main_state) (f : path) :
  let o := (f, snd (file_outcome w f)) in
  fst (main_step w st f) = fst (file_outcome w f) /\
  all_records (snd (main_step w st f)) = all_records st ++ records_of o /\
  failed (snd (main_step w st f)) = failed st ++ failure_of o /\
  processed (snd (main_step w st f)) =
    processed st + (if succeeded o then 1 else 0).
Proof.
  unfold main_step, file_outcome, records_of, failure_of, succeeded.
  destruct (Str.eqb (lower (path_suffix f)) (cp ".xls")).
  - destruct (convert_xls_to_xlsx w f) as [w' [xlsx_path|e]]; simpl.
    + destruct (process_workbook w' xlsx_path (path_name f)); simpl;
        rewrite ?app_nil_r; repeat split; lia.
    + rewrite ?app_nil_r. repeat split; lia.
  - destruct (process_workbook w f (path_name f)); simpl;
      rewrite ?app_nil_r; repeat split; lia.
Qed.

Lemma main_loop_outcomes (files : list path) (w : world) (st : main_state) :
  all_records (snd (main_loop w st files)) =
    all_records st ++ flat_map records_of (batch_outcomes w files) /\
  failed (snd (main_loop w st files)) =
    failed st ++ flat_map failure_of (batch_outcomes w files) /\
  processed (snd (main_loop w st files)) =
    processed st + List.length (filter succeeded (batch_outcomes w files)).
Proof.
  revert w st. induction files as [|f files IH]; intros w st.
  - simpl. rewrite !app_nil_r, Nat.add_0_r. auto.
  - cbn [main_loop batch_outcomes].
    pose proof (main_step_outcome w st f) as H. cbv zeta in H.
    destruct H as (Hw & Hr & Hf & Hp).
    destruct (main_step w st f) as [w1 st1].
    destruct (file_outcome w f) as [w2 o].
    cbn [fst snd] in Hw, Hr, Hf, Hp. subst w2.
    destruct (IH w1 st1) as (IHr & IHf & IHp).
    rewrite IHr, IHf, IHp, Hr, Hf, Hp.
    cbn [flat_map filter]. rewrite <- !app_assoc.
    split; [reflexivity|]. split; [reflexivity|].
    destruct (succeeded (f, o)); cbn [List.length]; lia.
Qed.

Lemma batch_outcomes_files (files : list path) (w : world) :
  map fst (batch_outcomes w files) = files.
Proof.
  revert w. induction files as [|f files IH]; intros w; simpl; [reflexivity|].
  destruct (file_outcome w f) as [w' o]. simpl. now rewrite IH.
Qed.

Lemma outcome_count (outs : list (path * result (list record))) :
  List.length (filter succeeded outs) + List.length (flat_map failure_of outs) =
  List.length outs.
Proof.
  induction outs as [|[f [recs|e]] outs IH]; simpl; [reflexivity| |];
    unfold succeeded, failure_of in *; simpl; lia.
Qed.

(* ================================================================= *)
(** ** Numbers as text *)

Lemma uint_digits (d : Decimal.uint) (c : char) :
  In c (cp (NilEmpty.string_of_uint d)) -> (48 <= c <= 57)%N.
Proof.
  unfold cp. induction d; simpl; try contradiction;
    (intros [<-|H]; [vm_compute; split; discriminate|now apply IHd]).
Qed.

Lemma cp_cons (a : ascii) (s : string) :
  cp (String a s) = N_of_ascii a :: cp s.
Proof. reflexivity. Qed.

Lemma nilzero_digits (d : Decimal.uint) (c : char) :
  In c (cp (NilZero.string_of_uint d)) -> (48 <= c <= 57)%N.
Proof.
  destruct d;
    try (change (NilZero.string_of_uint ?x) with (NilEmpty.string_of_uint x);
         apply uint_digits).
  simpl. intros [<-|[]]. vm_compute. split; discriminate.
Qed.

Lemma of_Z_chars (z : Z) (c : char) :
  In c (of_Z z) -> c = 45%N \/ (48 <= c <= 57)%N.
Proof.
  unfold of_Z, NilZero.string_of_int.
  destruct (Z.to_int z) as [d|d].
  - intros H. right. revert H. apply nilzero_digits.
  - rewrite cp_cons. intros [<-|H]; [now left|right].
    revert H. apply nilzero_digits.
Qed.

Lemma of_Z_no_dot (z : Z) : ~ In DOT (of_Z z).
Proof.
  intros H. apply of_Z_chars in H as [H|H]; [discriminate H|].
  unfold DOT in H. lia.
Qed.

Lemma signed_mantissa (s : bool) (m : positive) :
  (if s then Z.neg m else Z.pos m) = ((if s then -1 else 1) * Z.pos m)%Z.
Proof. destruct s; [now rewrite <- Pos2Z.opp_pos; ring|ring]. Qed.

Lemma float_integral_value (f : spec_float) :
  float_is_integer f = true ->
  exists d, float_fraction f = Some ((float_to_int f * d)%Z, d) /\ (0 < d)%Z.
Proof.
  destruct f as [s|s| |s m e];
    cbn [float_is_integer float_fraction float_to_int]; try discriminate.
  - intros _. exists 1%Z. split; [reflexivity|lia].
  - rewrite signed_mantissa. destruct (0 <=? e)%Z eqn:He.
    + intros _. exists 1%Z. split; [|lia]. f_equal. f_equal.
      destruct s; ring.
    + intros Hmod. apply Z.eqb_eq in Hmod. apply Z.leb_gt in He.
      assert (Hpos : (0 < 2 ^ (- e))%Z) by (apply Z.pow_pos_nonneg; lia).
      exists (2 ^ (- e))%Z. split; [|assumption]. f_equal. f_equal.
      pose proof (Z.div_mod (Z.pos m) (2 ^ (- e))%Z) as Hdm.
      rewrite Hmod, Z.add_0_r in Hdm.
      rewrite Hdm at 1 by lia. destruct s; ring.
Qed.

Lemma float_fraction_integral (f : spec_float) (n d z : Z) :
  float_fraction f = Some (n, d) -> n = (z * d)%Z ->
  float_is_integer f = true /\ float_to_int f = z.
Proof.
  destruct f as [s|s| |s m e];
    cbn [float_is_integer float_fraction float_to_int]; try discriminate.
  - intros H. injection H as <- <-. intros Hz. split; [reflexivity|lia].
  - rewrite signed_mantissa. destruct (0 <=? e)%Z eqn:He.
    + intros H. injection H as <- <-. intros Hz. split; [reflexivity|].
      rewrite Z.mul_1_r in Hz. rewrite <- Hz. destruct s; ring.
    + intros H. injection H as <- <-. apply Z.leb_gt in He.
      assert (Hpos : (0 < 2 ^ (- e))%Z) by (apply Z.pow_pos_nonneg; lia).
      intros Hz.
      assert (Hm : Z.pos m = ((if s then - z else z) * 2 ^ (- e))%Z).
      { destruct s; lia. }
      split.
      * apply Z.eqb_eq. rewrite Hm. apply Z.mod_mul. lia.
      * rewrite Hm, Z.div_mul by lia. destruct s; lia.
Qed.

(* ================================================================= *)
(** ** Properties of the normaliser and of the grouper *)

(** What is assumed of [str.lower]: on a string of ASCII characters and
    sentinel dashes it lowers the ASCII letters and changes nothing else; and
    it never removes a space. *)
Hypothesis lower_plain :
  forall s, Forall plain_char s -> lower s = ascii_lower s.
Hypothesis lower_keeps_space : forall s, In SP s -> In SP (lower s).

(** C5: every sentinel token, in any letter case, normalises to absent, and
    so do an absent input and any input whose cleaned string is empty. *)
Theorem sentinel_tokens_absent :
  (forall t s, In t EMPTY_TOKENS -> case_variant s t ->
     normalize_cell (VStr s) = None) /\
  normalize_cell VNone = None /\
  (forall v, cleanup (render v) = [] -> normalize_cell v = None).
Proof using lower_plain.
  split; [|split].
  - intros t s Ht Hv.
    destruct (case_variant_shape s t Hv Ht) as (Htidy & _ & Hplain).
    apply normalize_cell_token_str; [assumption|].
    rewrite (lower_plain s Hplain). unfold case_variant in Hv. rewrite Hv.
    now apply in_empty_tokens_In.
  - reflexivity.
  - intros v H. rewrite normalize_cell_unfold, H. now destruct v.
Qed.

(** C6: normalising the result of a normalisation changes nothing. *)
Theorem normalize_cell_idempotent (v : value) :
  normalize_cell (value_of (normalize_cell v)) = normalize_cell v.
Proof.
  destruct (normalize_cell v) as [s|] eqn:E; [|reflexivity].
  apply normalize_cell_Some in E as (_ & Hne & Htok & Ht).
  simpl. now apply normalize_cell_clean_str.
Qed.

(** C7: the grouper returns the surviving normalised cells of the columns,
    in column order, joined with the separator, collapsed and trimmed, and
    absent when none survives; no column gives absent; "Rede" next to "-"
    gives "Rede". *)
Theorem get_group_joins_survivors :
  (forall ws row cols sep,
     get_group ws row cols sep = group_spec ws row cols sep) /\
  (forall ws row sep, get_group ws row [] sep = None) /\
  (forall ws row,
     cell ws "H"%string row = VStr (cp "Rede") ->
     cell ws "I"%string row = VStr (cp "-") ->
     get_group ws row ["H"; "I"]%string [SP] = Some (cp "Rede")).
Proof using lower_plain.
  split; [|split].
  - apply get_group_group_spec.
  - reflexivity.
  - intros ws row HH HI.
    assert (E1 : normalize_cell (VStr (cp "Rede")) = Some (cp "Rede")).
    { apply normalize_cell_clean_str; [reflexivity|discriminate|].
      rewrite lower_plain; [reflexivity|].
      apply plain_forallb; reflexivity. }
    assert (E2 : normalize_cell (VStr (cp "-")) = None).
    { apply normalize_cell_token_str; [reflexivity|].
      rewrite lower_plain; [reflexivity|].
      apply plain_forallb; reflexivity. }
    unfold get_group. rewrite join_valid_parts. simpl map.
    rewrite HH, HI. simpl flat_map. unfold keep_part. rewrite E1, E2.
    reflexivity.
Qed.

(** C8: an int is rendered by its decimal digits; a float that is integral
    is rendered as the int of the same value, without a decimal point; any
    other float is rendered by the default conversion; the cleanup steps act
    on that text. *)
Theorem integral_numbers_render_as_integers :
  (forall z, render (VInt z) = of_Z z /\ ~ In DOT (of_Z z)) /\
  (forall f, float_is_integer f = true ->
     render (VFloat f) = render (VInt (float_to_int f)) /\
     exists d, (0 < d)%Z /\
               float_fraction f = Some ((float_to_int f * d)%Z, d)) /\
  (forall f n d z, float_fraction f = Some (n, d) -> n = (z * d)%Z ->
     render (VFloat f) = of_Z z) /\
  (forall f, float_is_integer f = false -> render (VFloat f) = float_str f) /\
  (forall v, v <> VNone ->
     normalize_cell v =
     match cleanup (render v) with
     | [] => None
     | s => if in_empty_tokens (lower s) then None else Some s
     end).
Proof.
  repeat split.
  - apply of_Z_no_dot.
  - unfold render. simpl. now rewrite H.
  - destruct (float_integral_value f H) as (d & Hd & Hpos). eauto.
  - intros f n d z Hf Hn.
    destruct (float_fraction_integral f n d z Hf Hn) as [Hi <-].
    unfold render. simpl. now rewrite Hi.
  - intros f H. unfold render. simpl. now rewrite H.
  - intros v Hv. rewrite normalize_cell_unfold.
    destruct v; try reflexivity; try (destruct (cleanup _); reflexivity).
    congruence.
Qed.

Lemma join_valid_not_token (values : list value) (sep out : str) :
  existsb isspace sep = true -> join_valid values sep = Some out ->
  in_empty_tokens (lower out) = false.
Proof using lower_keeps_space.
  intros Hsep H. apply join_valid_Some in H as (p & ps & E & -> & _ & _).
  destruct ps as [|q ps].
  - destruct (parts_normalized values p) as (v & _ & Hn).
    { rewrite E. now left. }
    apply normalize_cell_Some in Hn as (_ & _ & Htok & Ht).
    simpl join. now rewrite tidy_strip_collapse_fixed.
  - assert (Hsp : In SP (strip (collapse (join sep (p :: q :: ps))))).
    { apply join_gap; [assumption|]. intros x Hx.
      apply (parts_have_ink values). now rewrite E. }
    apply lower_keeps_space in Hsp.
    destruct (in_empty_tokens (lower (strip (collapse (join sep (p :: q :: ps))))))
      eqn:Et; [|reflexivity].
    apply in_empty_tokens_In in Et. now apply token_no_space in Et.
Qed.

Lemma join_valid_Clean (values : list value) (sep out : str) :
  join_valid values sep = Some out -> Clean out.
Proof.
  intros H. apply join_valid_Some in H as (p & ps & _ & _ & Ht & Hink).
  apply tidy_Clean; [assumption|]. now apply has_ink_nonempty.
Qed.

Lemma get_group_output (ws : worksheet) (r : nat) (cols : list string)
  (s : str) :
  get_group ws r cols [SP] = Some s ->
  Clean s /\ in_empty_tokens (lower s) = false.
Proof using lower_keeps_space.
  unfold get_group. intros H. split.
  - eapply join_valid_Clean; eauto.
  - eapply join_valid_not_token; eauto. reflexivity.
Qed.

Lemma last_seen_group (ws : worksheet) (cols : list string) (start q : nat)
  (s : str) :
  last_seen ws cols start q = Some s ->
  exists q', get_group ws q' cols [SP] = Some s.
Proof.
  unfold last_seen. change (fun last q0 => match get_group ws q0 cols [SP] with
                                            | Some v => Some v
                                            | None => last
                                            end) with (carry ws cols).
  destruct (fold_carry_spec ws cols start (q + 1 - start) None)
    as [[-> _]|(q' & v & _ & Hv & _ & ->)]; [discriminate|].
  intros H. injection H as <-. eauto.
Qed.

(** C10, amended: a string produced by [normalize_cell] or by the grouper is
    non-empty, has no line break, no leading or trailing whitespace and no
    run of whitespace; it is not a sentinel token when it comes from
    [normalize_cell], or from the grouper with a separator that has a
    whitespace character, as the single space used for every field of a
    record; so every field of an output record has all five properties. *)
Theorem outputs_are_clean :
  (forall v s, normalize_cell v = Some s ->
     Clean s /\ in_empty_tokens (lower s) = false) /\
  (forall values sep s, join_valid values sep = Some s ->
     Clean s /\
     (existsb isspace sep = true -> in_empty_tokens (lower s) = false)) /\
  (forall ws src start q rec s,
     In (q, rec) (extract_traced ws src start) -> In (Some s) (fields rec) ->
     Clean s /\ in_empty_tokens (lower s) = false).
Proof using lower_keeps_space.
  split; [|split].
  - intros v s H. apply normalize_cell_Some in H as (_ & Hne & Htok & Ht).
    split; [now apply tidy_Clean|assumption].
  - intros values sep s H. split.
    + eapply join_valid_Clean; eauto.
    + intros Hsep. eapply join_valid_not_token; eauto.
  - intros ws src start q rec s Hin Hs.
    rewrite extract_traced_closed in Hin.
    apply in_map_iff in Hin as (q0 & E & _). injection E as -> <-.
    unfold fields, record_at in Hs. simpl in Hs.
    destruct Hs as [Hs|[Hs|Hs]].
    + apply last_seen_group in Hs as [q' Hs]. eapply get_group_output; eauto.
    + apply last_seen_group in Hs as [q' Hs]. eapply get_group_output; eauto.
    + repeat destruct Hs as [Hs|Hs]; try contradiction;
        eapply get_group_output; eauto.
Qed.

(* ================================================================= *)
(** ** Properties of the worksheet loop *)

Lemma filter_none {A : Type} (p : A -> bool) (l : list A) :
  (forall x, In x l -> p x = false) -> filter p l = [].
Proof.
  induction l as [|x l IH]; simpl; intros H; [reflexivity|].
  rewrite (H x) by now left. apply IH. intros y Hy. apply H. now right.
Qed.

Lemma before_footer_first (ws : worksheet) (r n a : nat) :
  a <= r ->
  row_has_footer_marker ws r = true ->
  (forall q, a <= q < r -> row_has_footer_marker ws q = false) ->
  before_footer ws (seq a n) = filter (fun q => q <? r) (seq a n).
Proof.
  revert a. induction n as [|n IH]; intros a Ha Hr Hbefore; [reflexivity|].
  simpl. destruct (Nat.eq_dec a r) as [->|Hne].
  - rewrite Hr, Nat.ltb_irrefl. symmetry. apply filter_none.
    intros q Hq. apply in_seq in Hq. apply Nat.ltb_ge. lia.
  - rewrite (Hbefore a) by lia.
    replace (a <? r) with true by (symmetry; apply Nat.ltb_lt; lia).
    f_equal. apply IH; [lia|assumption|]. intros q Hq. apply Hbefore. lia.
Qed.

Lemma before_footer_prefix (ws : worksheet) (n a q q' : nat) :
  In q (before_footer ws (seq a n)) -> a <= q' <= q ->
  row_has_footer_marker ws q' = false.
Proof.
  destruct (before_footer_seq ws n a) as (m & _ & -> & Hno & _).
  intros Hq Hq'. apply Hno. apply in_seq in Hq. apply in_seq. lia.
Qed.

(** C1: extraction stops at the first footer row [r]: no record comes from
    row [r] or from a row below it, whatever those rows hold, and the rows
    before [r] give exactly the records they give without the footer. *)
Theorem extraction_stops_at_footer (ws : worksheet) (src : str)
  (start r : nat) :
  start <= r ->
  row_has_footer_marker ws r = true ->
  (forall q, start <= q < r -> row_has_footer_marker ws q = false) ->
  (forall q, row_has_footer_marker ws q = true <-> footer_spec ws q) /\
  (forall q rec, In (q, rec) (extract_traced ws src start) -> q < r) /\
  extract_traced ws src start =
    map (fun q => (q, record_at ws src start q))
      (filter (row_has_source_info ws)
         (filter (fun q => q <? r) (sheet_rows start ws))) /\
  extract ws src start = map snd (extract_traced ws src start).
Proof.
  intros Hle Hr Hbefore.
  assert (E : extract_traced ws src start =
              map (fun q => (q, record_at ws src start q))
                (filter (row_has_source_info ws)
                   (filter (fun q => q <? r) (sheet_rows start ws)))).
  { rewrite extract_traced_closed. unfold sheet_rows.
    now rewrite (before_footer_first ws r _ start Hle Hr Hbefore). }
  split; [apply row_has_footer_marker_spec|]. split; [|split].
  - intros q rec Hin. rewrite E in Hin.
    apply in_map_iff in Hin as (q0 & Hq0 & Hf). injection Hq0 as -> _.
    apply filter_In in Hf as [Hf _]. apply filter_In in Hf as [_ Hf].
    now apply Nat.ltb_lt.
  - exact E.
  - apply extract_erase.
Qed.

(** C2: the record of a row is kept exactly when one of its six
    energy-source fields is present; a row with equipment fields only gives
    no record. *)
Theorem record_kept_iff_source_info (ws : worksheet) (src : str) (start : nat) :
  (forall r lt ld lt' ld' kept,
     row_step ws src r lt ld = Continue lt' ld' kept ->
     kept = if has_source_info (record_from ws src lt ld r r)
            then Some (record_from ws src lt ld r r) else None) /\
  (forall q,
     In q (map fst (extract_traced ws src start)) <->
     In q (before_footer ws (sheet_rows start ws)) /\
     existsb isSome (source_groups ws q) = true) /\
  (forall q rec, In (q, rec) (extract_traced ws src start) ->
     has_source_info rec = true) /\
  (forall q, (forall g, In g (source_groups ws q) -> g = None) ->
     ~ In q (map fst (extract_traced ws src start))).
Proof.
  assert (Hmap : map fst (extract_traced ws src start) =
                 filter (row_has_source_info ws)
                   (before_footer ws (sheet_rows start ws))).
  { rewrite extract_traced_closed. apply map_fst_pair. }
  split; [|split; [|split]].
  - intros r lt ld lt' ld' kept H. rewrite row_step_cases in H.
    destruct (row_has_footer_marker ws r); [discriminate H|].
    injection H as _ _ <-. reflexivity.
  - intros q. rewrite Hmap, filter_In. reflexivity.
  - intros q rec Hin. rewrite extract_traced_closed in Hin.
    apply in_map_iff in Hin as (q0 & E & Hf). injection E as -> <-.
    apply filter_In in Hf as [_ Hf]. exact Hf.
  - intros q Hnone Hin. rewrite Hmap in Hin. apply filter_In in Hin as [_ Hs].
    unfold row_has_source_info in Hs.
    apply existsb_exists in Hs as (g & Hg & Hsome).
    rewrite (Hnone g Hg) in Hsome. discriminate.
Qed.

Lemma last_seen_inherits (ws : worksheet) (cols : list string)
  (start q : nat) :
  incl cols ALL_RELEVANT_COLS ->
  start <= q ->
  (forall q', start <= q' <= q -> row_has_footer_marker ws q' = false) ->
  inherits ws cols start q (last_seen ws cols start q).
Proof.
  intros Hincl Hle Hnf. unfold inherits, last_seen.
  change (fun last q0 => match get_group ws q0 cols [SP] with
                         | Some v => Some v
                         | None => last
                         end) with (carry ws cols).
  destruct (fold_carry_spec ws cols start (q + 1 - start) None)
    as [[Hr Hnone]|(q0 & v & Hq0 & Hv & Hlater & Hr)].
  - rewrite (Hnone q) by (apply in_seq; lia). left. split; [assumption|].
    intros q' Hq'. apply Hnone. apply in_seq. lia.
  - apply in_seq in Hq0. destruct (Nat.eq_dec q0 q) as [->|Hne].
    + now rewrite Hv.
    + rewrite (Hlater q) by (try apply in_seq; lia).
      right. exists q0, v. repeat split; try assumption; try lia.
      * intros q'' Hq''. apply Hlater; [apply in_seq|]; lia.
      * apply Hnf. lia.
      * apply (group_has_data ws q0 cols [SP] Hincl). now rewrite Hv.
Qed.

(** C3: the fill-down returns and stores a present value, and returns the
    stored one for an absent value; the updates absent, X, absent, absent
    give absent, X, X, X; in a record, a blank equipment tag or description
    is the one of the closest earlier row of the sheet that has one. *)
Theorem fill_down_contract :
  (forall last v, fill_down last (Some v) = (Some v, Some v)) /\
  (forall last, fill_down last None = (last, last)) /\
  (forall x, fill_down_run None [None; Some x; None; None] =
             [None; Some x; Some x; Some x]) /\
  (forall ws src start q rec,
     In (q, rec) (extract_traced ws src start) ->
     inherits ws COLS_EQUIP_TAG start q (tag_do_equipamento rec) /\
     inherits ws COLS_EQUIP_DESC start q (descricao_do_equipamento rec)).
Proof.
  split; [reflexivity|]. split; [reflexivity|]. split; [reflexivity|].
  intros ws src start q rec Hin. rewrite extract_traced_closed in Hin.
  apply in_map_iff in Hin as (q0 & E & Hf). injection E as -> <-.
  apply filter_In in Hf as [Hq _].
  assert (Hle : start <= q).
  { apply before_footer_no_footer in Hq as [Hq _].
    unfold sheet_rows in Hq. apply in_seq in Hq. lia. }
  assert (Hnf : forall q', start <= q' <= q ->
                           row_has_footer_marker ws q' = false).
  { intros q' Hq'. unfold sheet_rows in Hq.
    eapply before_footer_prefix; eauto. }
  split; apply last_seen_inherits; auto; apply relevant_cols; in_list.
Qed.

(** C4: the records come out in the order of their rows, which are strictly
    ascending. *)
Theorem records_in_row_order (ws : worksheet) (src : str) (start : nat) :
  StronglySorted lt (map fst (extract_traced ws src start)) /\
  extract ws src start = map snd (extract_traced ws src start).
Proof.
  split; [|apply extract_erase].
  rewrite extract_traced_closed, map_fst_pair.
  apply StronglySorted_filter_lt. unfold sheet_rows.
  destruct (before_footer_seq ws
              ((if Nat.eqb (max_row ws) 0 then start else max_row ws) + 1 - start)
              start) as (m & _ & -> & _).
  apply StronglySorted_seq.
Qed.

(* ================================================================= *)
(** ** Properties of the per-file loop *)

(** C9: a file that fails is recorded with its name and error text, gives no
    record, and the files after it are still processed; the records are those
    of the files that succeeded, in file order; with three files of which the
    second fails, two are processed, one has failed, and the records are those
    of the first and of the third. *)
Theorem batch_survives_failures (w : world) (files : list path) :
  let outs := batch_outcomes w files in
  let st := snd (main_loop w main_init files) in
  map fst outs = files /\
  all_records st = flat_map records_of outs /\
  failed st = flat_map failure_of outs /\
  processed st = List.length (filter succeeded outs) /\
  processed st + List.length (failed st) = List.length files /\
  (forall f1 f2 f3 r1 e r3,
     outs = [(f1, Ok r1); (f2, Raise e); (f3, Ok r3)] ->
     processed st = 2 /\ failed st = [(path_name f2, e)] /\
     all_records st = r1 ++ r3).
Proof.
  cbv zeta.
  destruct (main_loop_outcomes files w main_init) as (Hr & Hf & Hp).
  simpl in Hr, Hf, Hp.
  split; [apply batch_outcomes_files|].
  split; [assumption|]. split; [assumption|]. split; [assumption|].
  split.
  - rewrite Hp, Hf, outcome_count.
    rewrite <- (batch_outcomes_files files w) at 2. now rewrite length_map.
  - intros f1 f2 f3 r1 e r3 E. rewrite Hp, Hf, Hr, E. simpl.
    now rewrite app_nil_r.
Qed.

(* ================================================================= *)
(** ** More on the normaliser and the grouper *)

Lemma ink_replace (old new : char) (s : str) :
  isspace old = true -> isspace new = true -> ink (replace old new s) = ink s.
Proof.
  intros Ho Hn. unfold ink, replace.
  induction s as [|c t IH]; simpl; [reflexivity|].
  destruct (N.eqb_spec c old) as [->|_].
  - now rewrite Hn, Ho.
  - now rewrite IH.
Qed.

Lemma ink_collapse (s : str) : ink (collapse s) = ink s.
Proof.
  unfold ink. collapse_induction s; simpl; intros; rewrite ?isspace_SP;
    try congruence.
  all: repeat match goal with H : isspace _ = _ |- _ => rewrite H in * end;
    simpl in *; congruence.
Qed.

Lemma ink_lstrip (s : str) : ink (lstrip s) = ink s.
Proof.
  unfold ink. induction s as [|c t IH]; simpl; [reflexivity|].
  destruct (isspace c) eqn:Hc; simpl; [exact IH|]. now rewrite Hc.
Qed.

Lemma ink_rstrip (s : str) : ink (rstrip s) = ink s.
Proof.
  unfold ink. induction s as [|c t IH]; [reflexivity|].
  rewrite rstrip_cons. simpl filter at 2. rewrite <- IH.
  destruct (rstrip t) as [|d t'].
  - destruct (isspace c) eqn:Hc; simpl; now rewrite ?Hc.
  - reflexivity.
Qed.

Lemma ink_cleanup (s : str) : ink (cleanup s) = ink s.
Proof.
  unfold cleanup, strip.
  rewrite ink_rstrip, ink_lstrip, ink_collapse, !ink_replace; reflexivity.
Qed.

Lemma has_ink_false_ink (s : str) : has_ink s = false -> ink s = [].
Proof.
  unfold has_ink, ink. induction s as [|c t IH]; simpl; [reflexivity|].
  destruct (isspace c); simpl; [exact IH|discriminate].
Qed.

Lemma tidy_ink_nonempty (s : str) : tidy s = true -> ink s = [] -> s = [].
Proof.
  intros Ht Hi. destruct s as [|c t]; [reflexivity|].
  apply tidy_parts in Ht as (_ & Hs & _). simpl in Hs.
  unfold ink in Hi. simpl in Hi. rewrite Hs in Hi. discriminate.
Qed.

(** The normaliser changes whitespace and nothing else: the characters of
    the result that are not whitespace are those of the rendered value, in
    the same order and in the same letter case. *)
Theorem normalize_cell_keeps_ink (v : value) (s : str) :
  normalize_cell v = Some s -> ink s = ink (render v).
Proof.
  intros H. apply normalize_cell_Some in H as (-> & _).
  apply ink_cleanup.
Qed.

(** A value whose text is whitespace only, of any kind of Unicode
    whitespace, normalises to absent. *)
Theorem normalize_cell_blank (v : value) :
  has_ink (render v) = false -> normalize_cell v = None.
Proof.
  intros H. rewrite normalize_cell_unfold.
  assert (E : cleanup (render v) = []).
  { apply tidy_ink_nonempty; [apply cleanup_tidy|].
    rewrite ink_cleanup. now apply has_ink_false_ink. }
  rewrite E. now destruct v.
Qed.

(** A text of several words is never taken for a sentinel: a value whose
    cleaned text has a space is kept as that text. *)
Theorem normalize_cell_keeps_phrases (v : value) :
  v <> VNone -> In SP (cleanup (render v)) ->
  normalize_cell v = Some (cleanup (render v)).
Proof using lower_keeps_space.
  intros Hv Hsp. rewrite normalize_cell_unfold.
  destruct (cleanup (render v)) as [|c t] eqn:E; [contradiction|].
  destruct (in_empty_tokens (lower (c :: t))) eqn:Et.
  - apply in_empty_tokens_In in Et. apply lower_keeps_space in Hsp.
    now apply token_no_space in Et.
  - destruct v; try reflexivity. congruence.
Qed.

(** A field read from one column is the normalised cell of that column,
    whatever the separator. *)
Theorem get_group_single_column (ws : worksheet) (row : nat) (c : string)
  (sep : str) :
  get_group ws row [c] sep = normalize_cell (cell ws c row).
Proof.
  unfold get_group. rewrite join_valid_parts. simpl. unfold keep_part.
  destruct (normalize_cell (cell ws c row)) as [s|] eqn:E; [|reflexivity].
  simpl. apply normalize_cell_Some in E as (_ & _ & _ & Ht).
  now rewrite tidy_strip_collapse_fixed.
Qed.

Lemma starts_clean_app (a b : str) :
  a <> [] -> starts_clean (a ++ b) = starts_clean a.
Proof. destruct a; [congruence|reflexivity]. Qed.

Lemma ends_clean_app (a b : str) :
  b <> [] -> ends_clean (a ++ b) = ends_clean b.
Proof.
  intros Hb. induction a as [|x a IH]; [reflexivity|].
  simpl app. destruct (a ++ b) eqn:E.
  - apply app_eq_nil in E as [_ E]. contradiction.
  - exact IH.
Qed.

Lemma collapsed_app (a b : str) :
  collapsed a = true -> ends_clean a = true -> collapsed b = true ->
  collapsed (a ++ b) = true.
Proof.
  intros Ha He Hb. induction a as [|x a IH]; [exact Hb|].
  simpl in Ha. apply andb_true_iff in Ha as [Hx Ha'].
  destruct a as [|y a'].
  - simpl in He. apply negb_true_iff in He. simpl. now rewrite He.
  - change (ends_clean (y :: a') = true) in He.
    simpl app. simpl collapsed. simpl in Hx. rewrite Hx.
    apply (IH Ha' He).
Qed.

Lemma collapsed_cons_SP (b : str) :
  collapsed (SP :: b) = starts_clean b && collapsed b.
Proof. reflexivity. Qed.

Lemma tidy_join_space (parts : list str) :
  parts <> [] ->
  (forall p, In p parts -> tidy p = true /\ p <> []) ->
  tidy (join [SP] parts) = true /\ join [SP] parts <> [].
Proof.
  induction parts as [|p ps IH]; [congruence|]. intros _ H.
  destruct (H p (or_introl eq_refl)) as [Hp Hpne].
  destruct ps as [|q ps]; [now split|].
  rewrite join_cons2.
  destruct IH as [Hr Hrne]; [discriminate|intros x Hx; apply H; now right|].
  apply tidy_parts in Hp as (Hp1 & Hp2 & Hp3).
  apply tidy_parts in Hr as (Hr1 & Hr2 & Hr3).
  assert (H1 : collapsed (p ++ [SP] ++ join [SP] (q :: ps)) = true).
  { apply collapsed_app; auto.
    change ([SP] ++ join [SP] (q :: ps)) with (SP :: join [SP] (q :: ps)).
    rewrite collapsed_cons_SP, Hr2. exact Hr1. }
  assert (H2 : starts_clean (p ++ [SP] ++ join [SP] (q :: ps)) = true)
    by (rewrite starts_clean_app; auto).
  assert (H3 : ends_clean (p ++ [SP] ++ join [SP] (q :: ps)) = true).
  { rewrite ends_clean_app by discriminate. rewrite ends_clean_app; auto. }
  split.
  - unfold tidy. now rewrite H1, H2, H3.
  - intros E. apply app_eq_nil in E as [E _]. contradiction.
Qed.

(** With the separator of [process_workbook], the single space, a field is
    the surviving values of its columns with exactly one space between two
    of them: the final collapse and trim change nothing. *)
Theorem get_group_single_spaces (ws : worksheet) (row : nat)
  (cols : list string) :
  get_group ws row cols [SP] =
  match surviving ws row cols with
  | [] => None
  | parts => Some (join [SP] parts)
  end.
Proof.
  rewrite get_group_group_spec. unfold group_spec.
  destruct (surviving ws row cols) as [|p ps] eqn:E; [reflexivity|].
  f_equal. apply tidy_strip_collapse_fixed.
  apply tidy_join_space; [discriminate|].
  intros x Hx. rewrite <- E, surviving_flat_map in Hx.
  apply parts_normalized in Hx as (v & _ & Hn).
  apply normalize_cell_Some in Hn as (_ & Hne & _ & Ht). auto.
Qed.

(** A field read with the single space is stable under the normaliser:
    normalising it again, as when the consolidated table is read back,
    returns it unchanged. *)
Theorem get_group_output_is_normal (ws : worksheet) (row : nat)
  (cols : list string) :
  normalize_cell (value_of (get_group ws row cols [SP])) =
  get_group ws row cols [SP].
Proof using lower_keeps_space.
  destruct (get_group ws row cols [SP]) as [s|] eqn:E; [|reflexivity].
  simpl. unfold get_group in E.
  pose proof (join_valid_not_token _ [SP] s eq_refl E) as Htok.
  apply join_valid_Some in E as (_ & _ & _ & _ & Ht & Hink).
  apply normalize_cell_clean_str; auto. now apply has_ink_nonempty.
Qed.

(* ================================================================= *)
(** ** More on the row classifier and the worksheet loop *)

Lemma relevant_col_field (c : string) :
  In c ALL_RELEVANT_COLS -> exists cols, In cols FIELD_COLS /\ In c cols.
Proof.
  unfold ALL_RELEVANT_COLS. simpl. intros H.
  repeat destruct H as [H|H]; try contradiction; subst c;
    first
      [ exists COLS_EQUIP_TAG; split; solve [in_list]
      | exists COLS_EQUIP_DESC; split; solve [in_list]
      | exists COLS_FONTE_TAG; split; solve [in_list]
      | exists COLS_FONTE_DESC; split; solve [in_list]
      | exists COLS_COMO_BLOQUEAR; split; solve [in_list]
      | exists COLS_ONDE_BLOQUEAR; split; solve [in_list]
      | exists COLS_TIPO_BLOQUEIO; split; solve [in_list]
      | exists COLS_COMO_DESBLOQUEAR; split; solve [in_list] ].
Qed.

(** A row counts as having data exactly when one of its eight fields is
    present, whatever separator the fields are read with; so the rows the
    loop skips as blank are those where every field is absent. *)
Theorem row_has_any_data_iff_field (ws : worksheet) (r : nat) (sep : str) :
  row_has_any_data ws r = true <->
  exists cols, In cols FIELD_COLS /\ isSome (get_group ws r cols sep) = true.
Proof.
  split.
  - intros H. unfold row_has_any_data in H.
    apply existsb_exists in H as (c & Hc & Hsome).
    destruct (relevant_col_field c Hc) as (cols & Hcols & Hin).
    exists cols. split; [assumption|].
    destruct (get_group ws r cols sep) eqn:E; [reflexivity|].
    unfold get_group in E.
    rewrite (proj1 (join_valid_None _ sep) E (cell ws c r)) in Hsome.
    + discriminate.
    + apply in_map_iff. eauto.
  - intros (cols & Hcols & Hsome).
    apply (group_has_data ws r cols sep); [|assumption].
    now apply relevant_cols.
Qed.

(** What is assumed of [str.upper]: on ASCII text it is the ASCII
    upper-casing. *)
Hypothesis upper_ascii : forall s, ascii_only s -> upper s = ascii_upper s.

(** The footer test does not mind the letter case of ASCII text and finds a
    keyword anywhere inside a marker cell; it reads the marker columns only:
    a row whose marker cells are all absent is not a footer row, whatever
    its other columns hold. *)
Theorem footer_marker_cells (ws : worksheet) (r : nat) :
  (forall c s k,
     In c FOOTER_CHECK_COLS -> normalize_cell (cell ws c r) = Some s ->
     ascii_only s -> In k FOOTER_KEYWORDS ->
     contains (ascii_upper s) k = true ->
     row_has_footer_marker ws r = true) /\
  ((forall c, In c FOOTER_CHECK_COLS -> normalize_cell (cell ws c r) = None) ->
   row_has_footer_marker ws r = false).
Proof using upper_ascii.
  split.
  - intros c s k Hc Hn Ha Hk Hcont. apply row_has_footer_marker_spec.
    exists c, s, k. rewrite (upper_ascii s Ha). auto.
  - intros Hnone. destruct (row_has_footer_marker ws r) eqn:E; [|reflexivity].
    apply row_has_footer_marker_spec in E as (c & s & k & Hc & Hn & _).
    rewrite (Hnone c Hc) in Hn. discriminate.
Qed.

Lemma normalize_fold_ext {A : Type} (f g : A -> string -> A)
  (cols : list string) (acc : A) :
  (forall a c, In c cols -> f a c = g a c) ->
  fold_left f cols acc = fold_left g cols acc.
Proof.
  revert acc. induction cols as [|c cols IH]; intros acc H; [reflexivity|].
  simpl. rewrite (H acc c) by now left. apply IH.
  intros a c' Hc'. apply H. now right.
Qed.

Lemma row_step_ext (ws1 ws2 : worksheet) (src : str) (r : nat)
  (lt ld : option str) :
  (forall c, cell ws1 c r = cell ws2 c r) ->
  row_step ws1 src r lt ld = row_step ws2 src r lt ld.
Proof.
  intros H.
  assert (Hg : forall cols sep,
             get_group ws1 r cols sep = get_group ws2 r cols sep).
  { intros cols sep. unfold get_group. f_equal.
    apply map_ext. intros c. apply H. }
  assert (Hd : row_has_any_data ws1 r = row_has_any_data ws2 r).
  { unfold row_has_any_data.
    induction ALL_RELEVANT_COLS as [|c cols IH]; [reflexivity|].
    simpl. now rewrite H, IH. }
  assert (Hf : row_has_footer_marker ws1 r = row_has_footer_marker ws2 r).
  { unfold row_has_footer_marker.
    rewrite (normalize_fold_ext
               (fun texts c =>
                  match normalize_cell (cell ws1 c r) with
                  | Some ((_ :: _) as v) => texts ++ [upper v]
                  | _ => texts
                  end)
               (fun texts c =>
                  match normalize_cell (cell ws2 c r) with
                  | Some ((_ :: _) as v) => texts ++ [upper v]
                  | _ => texts
                  end)); [reflexivity|].
    intros a c _. now rewrite H. }
  unfold row_step. rewrite Hf, Hd, !Hg. reflexivity.
Qed.

Lemma rows_loop_ext (ws1 ws2 : worksheet) (src : str) (rows : list nat)
  (lt ld : option str) (acc : list record) :
  (forall c q, In q rows -> cell ws1 c q = cell ws2 c q) ->
  rows_loop ws1 src rows lt ld acc = rows_loop ws2 src rows lt ld acc.
Proof.
  revert lt ld acc. induction rows as [|r rows IH]; intros lt ld acc H;
    [reflexivity|].
  simpl. rewrite (row_step_ext ws1 ws2 src r lt ld)
    by (intros c; apply H; now left).
  destruct (row_step ws2 src r lt ld) as [|lt' ld' [rec|]];
    [reflexivity| |]; apply IH; intros c q Hq; apply H; now right.
Qed.

Lemma rows_loop_traced_length (ws : worksheet) (src : str) (rows : list nat)
  (lt ld : option str) :
  List.length (rows_loop_traced ws src rows lt ld []) <= List.length rows.
Proof.
  revert lt ld. induction rows as [|r rows IH]; intros lt ld; simpl; [lia|].
  destruct (row_step ws src r lt ld) as [|lt' ld' [rec|]].
  - simpl. lia.
  - rewrite rows_loop_traced_acc, length_app. simpl.
    specialize (IH lt' ld'). lia.
  - specialize (IH lt' ld'). lia.
Qed.

(** The row range at its edges: a sheet that reports no last row is read as
    if row [start_row] were its last; a sheet that ends above [start_row]
    gives no record; and there are never more records than rows from
    [start_row] to the last row. *)
Theorem extract_row_range (ws : worksheet) (src : str) (start : nat) :
  (max_row ws = 0 ->
   extract ws src start = extract (with_max_row ws start) src start) /\
  (0 < max_row ws < start -> extract ws src start = []) /\
  List.length (extract ws src start) <=
    (if Nat.eqb (max_row ws) 0 then 1 else max_row ws + 1 - start).
Proof.
  split; [|split].
  - intros H0. unfold extract, sheet_rows. simpl max_row. rewrite H0.
    replace (if Nat.eqb start 0 then start else start) with start
      by (now destruct (Nat.eqb start 0)).
    simpl Nat.eqb. cbv iota. apply rows_loop_ext. reflexivity.
  - intros H. unfold extract, sheet_rows.
    destruct (Nat.eqb_spec (max_row ws) 0) as [E|_]; [lia|].
    replace (max_row ws + 1 - start) with 0 by lia. reflexivity.
  - rewrite extract_erase, length_map. unfold extract_traced.
    eapply Nat.le_trans; [apply rows_loop_traced_length|].
    unfold sheet_rows. rewrite length_seq.
    destruct (Nat.eqb (max_row ws) 0); lia.
Qed.

(** The rows above [start_row] are never read: two sheets with the same
    last row and the same cells from [start_row] down give the same records,
    so nothing in the header rows, not even a footer keyword, has an
    effect. *)
Theorem extract_ignores_header_rows (ws1 ws2 : worksheet) (src : str)
  (start : nat) :
  max_row ws1 = max_row ws2 ->
  (forall c q, start <= q -> cell ws1 c q = cell ws2 c q) ->
  extract ws1 src start = extract ws2 src start.
Proof.
  intros Hm H. unfold extract, sheet_rows. rewrite Hm.
  apply rows_loop_ext. intros c q Hq. apply H. apply in_seq in Hq. lia.
Qed.

Lemma extract_source_name (ws : worksheet) (src : str) (start : nat)
  (rec : record) :
  In rec (extract ws src start) -> arquivo_de_origem rec = src.
Proof.
  rewrite extract_erase, extract_traced_closed, map_map. simpl.
  intros H. apply in_map_iff in H as (q & <- & _). reflexivity.
Qed.

(** Every record carries the source file name the sheet was read under. *)
Theorem records_carry_source_name (ws : worksheet) (src : str) (start : nat)
  (rec : record) :
  In rec (extract ws src start) -> arquivo_de_origem rec = src.
Proof. apply extract_source_name. Qed.

(** A row that is dropped for lack of source information still feeds the
    fill-down: if row [q0] has an equipment tag and no source field, and the
    rows after it up to an output row [q] have no tag, the record of [q]
    carries the tag of [q0], although [q0] gives no record itself. *)
Theorem dropped_row_feeds_fill_down (ws : worksheet) (src : str)
  (start q0 q : nat) (v : str) :
  In q (map fst (extract_traced ws src start)) ->
  start <= q0 < q ->
  get_group ws q0 COLS_EQUIP_TAG [SP] = Some v ->
  row_has_source_info ws q0 = false ->
  (forall q', q0 < q' <= q -> get_group ws q' COLS_EQUIP_TAG [SP] = None) ->
  ~ In q0 (map fst (extract_traced ws src start)) /\
  exists rec, In (q, rec) (extract_traced ws src start) /\
              tag_do_equipamento rec = Some v.
Proof.
  intros Hq Hq0 Hv Hns Hnone.
  rewrite extract_traced_closed in *. rewrite map_fst_pair in *.
  split.
  - intros H. apply filter_In in H as [_ H]. congruence.
  - exists (record_at ws src start q). split.
    + apply in_map_iff. exists q. auto.
    + simpl. unfold last_seen.
      change (fun last q1 => match get_group ws q1 COLS_EQUIP_TAG [SP] with
                             | Some v0 => Some v0
                             | None => last
                             end) with (carry ws COLS_EQUIP_TAG).
      destruct (fold_carry_spec ws COLS_EQUIP_TAG start (q + 1 - start) None)
        as [[_ Hall]|(q1 & v1 & Hq1 & Hv1 & Hlater & ->)].
      * rewrite (Hall q0) in Hv by (apply in_seq; lia). discriminate.
      * apply in_seq in Hq1.
        destruct (Nat.lt_trichotomy q1 q0) as [Hlt|[->|Hgt]].
        -- rewrite (Hlater q0) in Hv by (try apply in_seq; lia). discriminate.
        -- congruence.
        -- rewrite (Hnone q1) in Hv1 by lia. discriminate.
Qed.

(* ================================================================= *)
(** ** More on the per-file loop *)

Lemma main_step_converted (w : world) (st : main_state) (f : path) :
  converted (snd (main_step w st f)) =
  converted st +
  (if is_xls f
   then match convert_xls_to_xlsx w f with
        | (_, Ok _) => 1
        | (_, Raise _) => 0
        end
   else 0).
Proof.
  unfold main_step, is_xls.
  destruct (Str.eqb (lower (path_suffix f)) (cp ".xls")).
  - destruct (convert_xls_to_xlsx w f) as [w' [xlsx_path|e]]; simpl.
    + destruct (process_workbook w' xlsx_path (path_name f)); reflexivity.
    + lia.
  - destruct (process_workbook w f (path_name f)); simpl; lia.
Qed.

Lemma conversions_bound (w : world) (files : list path) :
  conversions w files <= List.length (filter is_xls files).
Proof.
  revert w. induction files as [|f files IH]; intros w; simpl; [lia|].
  specialize (IH (fst (file_outcome w f))).
  destruct (is_xls f); simpl; [|lia].
  destruct (convert_xls_to_xlsx w f) as [w' [p|e]]; lia.
Qed.

(** The counter of conversions counts the legacy files whose conversion
    succeeded, also those whose converted workbook then fails to load; a
    file of another suffix is never converted and leaves the world as it
    is. *)
Theorem converted_counts_conversions (w : world) (st : main_state)
  (files : list path) :
  converted (snd (main_loop w st files)) = converted st + conversions w files /\
  conversions w files <= List.length (filter is_xls files) /\
  (forall f, is_xls f = false -> fst (file_outcome w f) = w).
Proof.
  split; [|split].
  - revert w st. induction files as [|f files IH]; intros w st.
    + simpl. lia.
    + cbn [main_loop conversions].
      pose proof (main_step_converted w st f) as Hc.
      pose proof (main_step_outcome w st f) as Ho. cbv zeta in Ho.
      destruct Ho as (Hw & _).
      destruct (main_step w st f) as [w1 st1]. cbn [fst snd] in Hc, Hw.
      rewrite IH, Hc, Hw. lia.
  - apply conversions_bound.
  - intros f Hf. unfold file_outcome. unfold is_xls in Hf. now rewrite Hf.
Qed.


Lemma batch_outcomes_In (files : list path) (w : world) (f : path)
  (o : result (list record)) :
  In (f, o) (batch_outcomes w files) ->
  In f files /\ exists w', o = snd (file_outcome w' f).
Proof.
  revert w. induction files as [|g files IH]; intros w; simpl; [intros []|].
  destruct (file_outcome w g) as [w1 o1] eqn:E. simpl.
  intros [H|H].
  - injection H as -> ->. split; [now left|]. exists w. now rewrite E.
  - destruct (IH w1 H) as [Hin Hex]. split; [now right|assumption].
Qed.

Lemma process_workbook_Ok (w : world) (p : path) (name : str)
  (recs : list record) :
  process_workbook w p name = Ok recs ->
  exists ws rest, load_workbook w p = Ok (ws :: rest) /\
                  recs = extract ws name START_ROW.
Proof.
  unfold process_workbook.
  destruct (load_workbook w p) as [[|ws rest]|e]; try discriminate.
  intros H. injection H as <-. eauto.
Qed.

Lemma file_outcome_Ok (w : world) (f : path) (recs : list record) :
  snd (file_outcome w f) = Ok recs ->
  exists ws, recs = extract ws (path_name f) START_ROW.
Proof.
  unfold file_outcome.
  destruct (Str.eqb (lower (path_suffix f)) (cp ".xls")).
  - destruct (convert_xls_to_xlsx w f) as [w' [p|e]]; simpl; [|discriminate].
    intros H. apply process_workbook_Ok in H as (ws & _ & _ & ->). eauto.
  - simpl. intros H. apply process_workbook_Ok in H as (ws & _ & _ & ->). eauto.
Qed.

(** Every consolidated record comes from a file of the batch that was
    processed without error, and names that file as its source. *)
Theorem consolidated_records_name_their_file (w : world) (files : list path)
  (rec : record) :
  In rec (all_records (snd (main_loop w main_init files))) ->
  exists f recs,
    In f files /\ In (f, Ok recs) (batch_outcomes w files) /\ In rec recs /\
    arquivo_de_origem rec = path_name f.
Proof.
  destruct (main_loop_outcomes files w main_init) as (Hr & _).
  rewrite Hr. simpl. intros H.
  apply in_flat_map in H as ([f o] & Ho & Hrec).
  unfold records_of in Hrec. simpl in Hrec.
  destruct o as [recs|e]; [|contradiction].
  destruct (batch_outcomes_In files w f (Ok recs) Ho) as (Hf & w' & E).
  symmetry in E. apply file_outcome_Ok in E as [ws ->].
  exists f, (extract ws (path_name f) START_ROW).
  repeat split; auto. eapply extract_source_name; eauto.
Qed.

(* ================================================================= *)
(** ** The input files *)

(** What is assumed of paths: their equality test decides equality, and
    their order is total and transitive. *)
Hypothesis path_eqb_eq : forall p q, path_eqb p q = true <-> p = q.
Hypothesis path_leb_total :
  forall p q, path_leb p q = true \/ path_leb q p = true.
Hypothesis path_leb_trans :
  forall p q r, path_leb p q = true -> path_leb q r = true ->
                path_leb p r = true.

Lemma dedup_In (l : list path) (p : path) : In p (dedup l) <-> In p l.
Proof using path_eqb_eq.
  induction l as [|q l IH]; simpl; [reflexivity|].
  destruct (existsb (path_eqb q) (dedup l)) eqn:E.
  - rewrite IH. split; [now right|]. intros [<-|H]; [|assumption].
    apply existsb_exists in E as (x & Hx & Hq).
    apply path_eqb_eq in Hq. subst x. now apply IH.
  - simpl. now rewrite IH.
Qed.

Lemma dedup_NoDup (l : list path) : NoDup (dedup l).
Proof using path_eqb_eq.
  induction l as [|q l IH]; simpl; [constructor|].
  destruct (existsb (path_eqb q) (dedup l)) eqn:E; [assumption|].
  constructor; [|assumption]. intros Hin.
  assert (Ht : existsb (path_eqb q) (dedup l) = true).
  { apply existsb_exists. exists q. split; [assumption|]. now apply path_eqb_eq. }
  congruence.
Qed.

Lemma insert_path_In (p q : path) (l : list path) :
  In p (insert_path q l) <-> p = q \/ In p l.
Proof.
  induction l as [|x l IH]; simpl.
  - split; intros [H|H]; auto.
  - destruct (path_leb q x); simpl; [|rewrite IH];
      split; intros H; repeat destruct H as [H|H]; auto.
Qed.

Lemma sorted_In (l : list path) (p : path) : In p (sorted l) <-> In p l.
Proof.
  unfold sorted. induction l as [|q l IH]; simpl; [reflexivity|].
  rewrite insert_path_In, IH. split; intros [H|H]; auto.
Qed.

Lemma insert_path_NoDup (q : path) (l : list path) :
  ~ In q l -> NoDup l -> NoDup (insert_path q l).
Proof.
  intros Hq Hl. induction l as [|x l IH]; simpl.
  - constructor; [intros []|constructor].
  - destruct (path_leb q x).
    + constructor; assumption.
    + inversion Hl as [|? ? Hx Hl']; subst. constructor.
      * rewrite insert_path_In. intros [->|H]; [|contradiction].
        apply Hq. now left.
      * apply IH; [|assumption]. intros H. apply Hq. now right.
Qed.

Lemma sorted_NoDup (l : list path) : NoDup l -> NoDup (sorted l).
Proof.
  unfold sorted. induction 1 as [|q l Hq Hl IH]; simpl; [constructor|].
  apply insert_path_NoDup; [|assumption].
  intros H. apply Hq. now apply sorted_In.
Qed.

Lemma insert_path_sorted (q : path) (l : list path) :
  StronglySorted (fun a b => path_leb a b = true) l ->
  StronglySorted (fun a b => path_leb a b = true) (insert_path q l).
Proof using path_leb_total path_leb_trans.
  induction 1 as [|x l Hs IH Hall]; simpl.
  - constructor; constructor.
  - destruct (path_leb q x) eqn:E.
    + constructor; [now constructor|].
      constructor; [assumption|].
      rewrite Forall_forall in *. intros y Hy.
      eapply path_leb_trans; eauto.
    + constructor; [assumption|].
      rewrite Forall_forall in *. intros y Hy.
      apply insert_path_In in Hy as [->|Hy]; [|now apply Hall].
      destruct (path_leb_total q x) as [H|H]; [congruence|assumption].
Qed.

Lemma sorted_sorted (l : list path) :
  StronglySorted (fun a b => path_leb a b = true) (sorted l).
Proof using path_leb_total path_leb_trans.
  unfold sorted. induction l as [|q l IH]; simpl; [constructor|].
  now apply insert_path_sorted.
Qed.

(** The input files are listed in path order, each once, without the lock
    files of open workbooks; a file is listed exactly when the input folder
    exists, one of the three patterns finds it, and its name does not start
    with the lock prefix. *)
Theorem list_input_files_spec (w : world) :
  StronglySorted (fun a b => path_leb a b = true) (list_input_files w) /\
  NoDup (list_input_files w) /\
  (forall p,
     In p (list_input_files w) <->
     input_dir_exists w = true /\ is_lock_file p = false /\
     exists pattern, In pattern PATTERNS /\ In p (rglob w pattern)).
Proof using path_eqb_eq path_leb_total path_leb_trans.
  unfold list_input_files.
  destruct (input_dir_exists w); simpl negb; cbv iota.
  - split; [apply sorted_sorted|]. split; [apply sorted_NoDup, dedup_NoDup|].
    intros p. rewrite sorted_In, dedup_In, in_flat_map. split.
    + intros (pattern & Hp & Hin). apply filter_In in Hin as [Hin Hl].
      apply negb_true_iff in Hl. eauto.
    + intros (_ & Hl & pattern & Hp & Hin). exists pattern.
      split; [assumption|]. apply filter_In. split; [assumption|].
      now apply negb_true_iff.
  - split; [constructor|]. split; [constructor|].
    intros p. split; [intros []|intros [H _]; discriminate H].
Qed.

(** [main] ends by [SystemExit] exactly when the input folder is missing or
    no input file is listed; otherwise every listed file is accounted for
    once, as processed or as failed. *)
Theorem main_accounts_for_every_file (w : world) :
  match main w with
  | SystemExit _ =>
      input_dir_exists w = false \/ list_input_files (make_dirs w) = []
  | Collected _ st =>
      input_dir_exists w = true /\
      list_input_files (make_dirs w) <> [] /\
      processed st + List.length (failed st) =
        List.length (list_input_files (make_dirs w)) /\
      st = snd (main_loop (make_dirs w) main_init
                  (list_input_files (make_dirs w)))
  end.
Proof.
  unfold main. destruct (input_dir_exists w); simpl negb; cbv iota; [|now left].
  cbv zeta.
  destruct (list_input_files (make_dirs w)) as [|f files] eqn:E; [now right|].
  pose proof (main_loop_outcomes (f :: files) (make_dirs w) main_init)
    as (_ & Hf & Hp).
  destruct (main_loop (make_dirs w) main_init (f :: files)) as [w' st] eqn:El.
  cbn [snd] in Hf, Hp. split; [reflexivity|]. split; [discriminate|].
  split; [|reflexivity].
  assert (Hlen : List.length (batch_outcomes (make_dirs w) (f :: files)) =
                 List.length (f :: files)).
  { rewrite <- (length_map fst (batch_outcomes (make_dirs w) (f :: files))).
    now rewrite batch_outcomes_files. }
  rewrite Hp, Hf. cbn [main_init processed failed app Nat.add].
  rewrite outcome_count. exact Hlen.
Qed.

End Extractor.

(* ================================================================= *)
(** ** The properties on sample data

    [str.lower] and [str.upper] act on ASCII text as [ascii_lower] and
    [ascii_upper] do; the samples below have ASCII text only. *)

Lemma ascii_lower_keeps_space (s : str) : In SP s -> In SP (ascii_lower s).
Proof.
  intros H. apply (in_map ascii_lower_char) in H. exact H.
Qed.

Lemma sentinel_tokens_absent_witness :
  In (cp "n/a") EMPTY_TOKENS /\ case_variant (cp "N/a") (cp "n/a") /\
  normalize_cell ascii_lower sample_float_str (VStr (cp "N/a")) = None.
Proof.
  assert (Hin : In (cp "n/a") EMPTY_TOKENS) by (vm_compute; tauto).
  assert (Hv : case_variant (cp "N/a") (cp "n/a")) by reflexivity.
  split; [exact Hin|]. split; [exact Hv|].
  exact (proj1 (sentinel_tokens_absent ascii_lower sample_float_str
                  (fun s _ => eq_refl))
           (cp "n/a") (cp "N/a") Hin Hv).
Defined.

Lemma get_group_joins_survivors_witness :
  cell rede_sheet "H"%string 11 = VStr (cp "Rede") /\
  cell rede_sheet "I"%string 11 = VStr (cp "-") /\
  get_group ascii_lower sample_float_str rede_sheet 11 ["H"; "I"]%string [SP]
  = Some (cp "Rede").
Proof.
  split; [reflexivity|]. split; [reflexivity|].
  exact (proj2 (proj2 (get_group_joins_survivors ascii_lower sample_float_str
                         (fun s _ => eq_refl)))
           rede_sheet 11 eq_refl eq_refl).
Defined.

Lemma integral_numbers_render_as_integers_witness :
  float_is_integer two_point_zero = true /\
  render sample_float_str (VFloat two_point_zero) =
  render sample_float_str (VInt (float_to_int two_point_zero)).
Proof.
  split; [reflexivity|].
  exact (proj1 (proj1 (proj2 (integral_numbers_render_as_integers
                                ascii_lower sample_float_str))
                  two_point_zero eq_refl)).
Defined.

Lemma outputs_are_clean_witness :
  join_valid ascii_lower sample_float_str [VStr (cp "n"); VStr (cp "a")] [SP]
    = Some (cp "n a") /\
  existsb isspace [SP] = true /\
  Clean (cp "n a") /\ in_empty_tokens (ascii_lower (cp "n a")) = false.
Proof.
  assert (E : join_valid ascii_lower sample_float_str
                [VStr (cp "n"); VStr (cp "a")] [SP] = Some (cp "n a"))
    by (vm_compute; reflexivity).
  split; [exact E|]. split; [reflexivity|].
  destruct (proj1 (proj2 (outputs_are_clean ascii_lower ascii_upper
                            sample_float_str ascii_lower_keeps_space))
              [VStr (cp "n"); VStr (cp "a")] [SP] (cp "n a") E) as [Hc Ht].
  split; [exact Hc|]. apply Ht. reflexivity.
Defined.

(** The grouper called with an empty separator glues "n/" and "a" into the
    sentinel "n/a". *)
Lemma group_can_yield_sentinel :
  join_valid ascii_lower sample_float_str [VStr (cp "n/"); VStr (cp "a")] []
    = Some (cp "n/a") /\
  in_empty_tokens (ascii_lower (cp "n/a")) = true.
Proof. split; reflexivity. Qed.

Lemma extraction_stops_at_footer_witness :
  11 <= 14 /\
  row_has_footer_marker ascii_lower ascii_upper sample_float_str
    sample_sheet 14 = true /\
  (forall q, 11 <= q < 14 ->
     row_has_footer_marker ascii_lower ascii_upper sample_float_str
       sample_sheet q = false) /\
  (forall q rec,
     In (q, rec)
       (extract_traced ascii_lower ascii_upper sample_float_str sample_sheet
          (cp "a.xlsx") 11) -> q < 14).
Proof.
  assert (H1 : 11 <= 14) by lia.
  assert (H2 : row_has_footer_marker ascii_lower ascii_upper sample_float_str
                 sample_sheet 14 = true) by (vm_compute; reflexivity).
  assert (H3 : forall q, 11 <= q < 14 ->
     row_has_footer_marker ascii_lower ascii_upper sample_float_str
       sample_sheet q = false).
  { intros q Hq. assert (Hc : q = 11 \/ q = 12 \/ q = 13) by lia.
    destruct Hc as [->|[->| ->]]; vm_compute; reflexivity. }
  split; [exact H1|]. split; [exact H2|]. split; [exact H3|].
  exact (proj1 (proj2 (extraction_stops_at_footer ascii_lower ascii_upper
                         sample_float_str sample_sheet (cp "a.xlsx") 11 14
                         H1 H2 H3))).
Defined.

Lemma record_kept_iff_source_info_witness :
  (forall g,
     In g (source_groups ascii_lower sample_float_str sample_sheet 13) ->
     g = None) /\
  ~ In 13
      (map fst
         (extract_traced ascii_lower ascii_upper sample_float_str
            sample_sheet (cp "a.xlsx") 11)).
Proof.
  assert (H : forall g,
     In g (source_groups ascii_lower sample_float_str sample_sheet 13) ->
     g = None).
  { intros g Hg. vm_compute in Hg.
    repeat destruct Hg as [Hg|Hg]; try (symmetry; exact Hg). contradiction. }
  split; [exact H|].
  exact (proj2 (proj2 (proj2 (record_kept_iff_source_info ascii_lower
                                ascii_upper sample_float_str sample_sheet
                                (cp "a.xlsx") 11)))
           13 H).
Defined.

Lemma fill_down_contract_witness :
  let rec :=
    record_at ascii_lower sample_float_str sample_sheet (cp "a.xlsx") 11 12 in
  In (12, rec)
    (extract_traced ascii_lower ascii_upper sample_float_str sample_sheet
       (cp "a.xlsx") 11) /\
  tag_do_equipamento rec = Some (cp "EQ-1") /\
  inherits ascii_lower ascii_upper sample_float_str sample_sheet
    COLS_EQUIP_TAG 11 12 (tag_do_equipamento rec).
Proof.
  intros rec.
  assert (E : extract_traced ascii_lower ascii_upper sample_float_str
                sample_sheet (cp "a.xlsx") 11 =
              [(11, record_at ascii_lower sample_float_str sample_sheet
                      (cp "a.xlsx") 11 11); (12, rec)])
    by (vm_compute; reflexivity).
  assert (Hin : In (12, rec)
    (extract_traced ascii_lower ascii_upper sample_float_str sample_sheet
       (cp "a.xlsx") 11)).
  { rewrite E. right. left. reflexivity. }
  split; [exact Hin|]. split; [vm_compute; reflexivity|].
  pose proof (proj2 (proj2 (proj2 (fill_down_contract ascii_lower
                                     ascii_upper sample_float_str)))
                sample_sheet (cp "a.xlsx") 11 12 rec Hin) as H.
  exact (proj1 H).
Defined.

Lemma batch_survives_failures_witness :
  let outs :=
    batch_outcomes ascii_lower ascii_upper sample_float_str
      nat sample_name sample_suffix unit sample_load sample_convert tt
      [1; 2; 3] in
  let st :=
    snd (main_loop ascii_lower ascii_upper sample_float_str
           nat sample_name sample_suffix unit sample_load sample_convert tt
           main_init [1; 2; 3]) in
  let recs_of p :=
    extract ascii_lower ascii_upper sample_float_str sample_sheet
      (sample_name p) START_ROW in
  outs = [(1, Ok (recs_of 1)); (2, Raise (cp "File is not a zip file"));
          (3, Ok (recs_of 3))] /\
  processed st = 2 /\
  failed st = [(sample_name 2, cp "File is not a zip file")] /\
  all_records st = recs_of 1 ++ recs_of 3.
Proof.
  intros outs st recs_of.
  assert (E : outs = [(1, Ok (recs_of 1));
                      (2, Raise (cp "File is not a zip file"));
                      (3, Ok (recs_of 3))]) by (vm_compute; reflexivity).
  split; [exact E|].
  exact (proj2 (proj2 (proj2 (proj2 (proj2
           (batch_survives_failures ascii_lower ascii_upper sample_float_str
              nat sample_name sample_suffix unit sample_load sample_convert
              tt [1; 2; 3])))))
           1 2 3 (recs_of 1) (cp "File is not a zip file") (recs_of 3) E).
Defined.

(* ================================================================= *)
(** ** The further properties on sample data *)

Lemma nat_leb_total (p q : nat) : Nat.leb p q = true \/ Nat.leb q p = true.
Proof.
  destruct (Nat.leb_spec p q) as [H|H]; [now left|right].
  apply Nat.leb_le. lia.
Qed.

Lemma nat_leb_trans (p q r : nat) :
  Nat.leb p q = true -> Nat.leb q r = true -> Nat.leb p r = true.
Proof. rewrite !Nat.leb_le. lia. Qed.

Lemma normalize_cell_keeps_ink_witness :
  normalize_cell ascii_lower sample_float_str (VStr (cp "  Valve   A "))
    = Some (cp "Valve A") /\
  ink (cp "Valve A") = ink (cp "  Valve   A ").
Proof.
  assert (E : normalize_cell ascii_lower sample_float_str
                (VStr (cp "  Valve   A ")) = Some (cp "Valve A"))
    by (vm_compute; reflexivity).
  split; [exact E|].
  exact (normalize_cell_keeps_ink ascii_lower sample_float_str
           (VStr (cp "  Valve   A ")) (cp "Valve A") E).
Defined.

Lemma normalize_cell_blank_witness :
  has_ink (render sample_float_str (VStr blank_text)) = false /\
  normalize_cell ascii_lower sample_float_str (VStr blank_text) = None.
Proof.
  assert (H : has_ink (render sample_float_str (VStr blank_text)) = false)
    by (vm_compute; reflexivity).
  split; [exact H|].
  exact (normalize_cell_blank ascii_lower sample_float_str (VStr blank_text) H).
Defined.

Lemma normalize_cell_keeps_phrases_witness :
  VStr (cp "N/A  valve") <> VNone /\
  In SP (cleanup (render sample_float_str (VStr (cp "N/A  valve")))) /\
  normalize_cell ascii_lower sample_float_str (VStr (cp "N/A  valve")) =
  Some (cleanup (render sample_float_str (VStr (cp "N/A  valve")))).
Proof.
  assert (H1 : VStr (cp "N/A  valve") <> VNone) by discriminate.
  assert (H2 : In SP (cleanup (render sample_float_str
                                 (VStr (cp "N/A  valve"))))).
  { vm_compute. right. right. right. left. reflexivity. }
  split; [exact H1|]. split; [exact H2|].
  exact (normalize_cell_keeps_phrases ascii_lower sample_float_str
           ascii_lower_keeps_space (VStr (cp "N/A  valve")) H1 H2).
Defined.

Lemma get_group_output_is_normal_witness :
  normalize_cell ascii_lower sample_float_str
    (value_of (get_group ascii_lower sample_float_str sample_sheet 11
                 COLS_COMO_BLOQUEAR [SP]))
  = get_group ascii_lower sample_float_str sample_sheet 11
      COLS_COMO_BLOQUEAR [SP].
Proof.
  exact (get_group_output_is_normal ascii_lower sample_float_str
           ascii_lower_keeps_space sample_sheet 11 COLS_COMO_BLOQUEAR).
Defined.

Lemma row_has_any_data_iff_field_witness :
  row_has_any_data ascii_lower sample_float_str sample_sheet 12 = true /\
  exists cols,
    In cols FIELD_COLS /\
    isSome (get_group ascii_lower sample_float_str sample_sheet 12 cols [SP])
    = true.
Proof.
  assert (H : row_has_any_data ascii_lower sample_float_str sample_sheet 12
              = true) by (vm_compute; reflexivity).
  split; [exact H|].
  exact (proj1 (row_has_any_data_iff_field ascii_lower sample_float_str
                  sample_sheet 12 [SP]) H).
Defined.

Lemma footer_marker_cells_witness :
  In "A"%string FOOTER_CHECK_COLS /\
  normalize_cell ascii_lower sample_float_str (cell sample_sheet "A"%string 14)
    = Some (cp "Legenda") /\
  ascii_only (cp "Legenda") /\ In (cp "LEGENDA") FOOTER_KEYWORDS /\
  contains (ascii_upper (cp "Legenda")) (cp "LEGENDA") = true /\
  row_has_footer_marker ascii_lower ascii_upper sample_float_str
    sample_sheet 14 = true.
Proof.
  assert (H1 : In "A"%string FOOTER_CHECK_COLS) by (left; reflexivity).
  assert (H2 : normalize_cell ascii_lower sample_float_str
                 (cell sample_sheet "A"%string 14) = Some (cp "Legenda"))
    by (vm_compute; reflexivity).
  assert (H3 : ascii_only (cp "Legenda"))
    by (repeat constructor).
  assert (H4 : In (cp "LEGENDA") FOOTER_KEYWORDS) by (left; reflexivity).
  assert (H5 : contains (ascii_upper (cp "Legenda")) (cp "LEGENDA") = true)
    by (vm_compute; reflexivity).
  repeat (split; [assumption|]).
  exact (proj1 (footer_marker_cells ascii_lower ascii_upper sample_float_str
                  (fun s _ => eq_refl) sample_sheet 14)
           "A"%string (cp "Legenda") (cp "LEGENDA") H1 H2 H3 H4 H5).
Defined.

Lemma extract_row_range_witness :
  0 < max_row (with_max_row sample_sheet 5) < 11 /\
  extract ascii_lower ascii_upper sample_float_str
    (with_max_row sample_sheet 5) (cp "a.xlsx") 11 = [].
Proof.
  assert (H : 0 < max_row (with_max_row sample_sheet 5) < 11) by (simpl; lia).
  split; [exact H|].
  exact (proj1 (proj2 (extract_row_range ascii_lower ascii_upper
                         sample_float_str (with_max_row sample_sheet 5)
                         (cp "a.xlsx") 11)) H).
Defined.

Lemma extract_ignores_header_rows_witness :
  max_row header_sheet = max_row sample_sheet /\
  (forall c q, 11 <= q -> cell header_sheet c q = cell sample_sheet c q) /\
  extract ascii_lower ascii_upper sample_float_str header_sheet (cp "a.xlsx") 11
  = extract ascii_lower ascii_upper sample_float_str sample_sheet
      (cp "a.xlsx") 11.
Proof.
  assert (H1 : max_row header_sheet = max_row sample_sheet) by reflexivity.
  assert (H2 : forall c q, 11 <= q ->
                 cell header_sheet c q = cell sample_sheet c q).
  { intros c q Hq. unfold header_sheet. cbn [cell].
    destruct (Nat.eqb_spec q 5) as [E|_]; [lia|].
    now rewrite andb_false_r. }
  split; [exact H1|]. split; [exact H2|].
  exact (extract_ignores_header_rows ascii_lower ascii_upper sample_float_str
           header_sheet sample_sheet (cp "a.xlsx") 11 H1 H2).
Defined.

Lemma records_carry_source_name_witness :
  let rec :=
    record_at ascii_lower sample_float_str sample_sheet (cp "a.xlsx") 11 11 in
  In rec (extract ascii_lower ascii_upper sample_float_str sample_sheet
            (cp "a.xlsx") 11) /\
  arquivo_de_origem rec = cp "a.xlsx".
Proof.
  intros rec.
  assert (E : extract ascii_lower ascii_upper sample_float_str sample_sheet
                (cp "a.xlsx") 11 =
              [rec; record_at ascii_lower sample_float_str sample_sheet
                      (cp "a.xlsx") 11 12])
    by (vm_compute; reflexivity).
  assert (H : In rec (extract ascii_lower ascii_upper sample_float_str
                        sample_sheet (cp "a.xlsx") 11)).
  { rewrite E. left. reflexivity. }
  split; [exact H|].
  exact (records_carry_source_name ascii_lower ascii_upper sample_float_str
           sample_sheet (cp "a.xlsx") 11 rec H).
Defined.

Lemma dropped_row_feeds_fill_down_witness :
  In 13 (map fst (extract_traced ascii_lower ascii_upper sample_float_str
                    merged_sheet (cp "a.xlsx") 11)) /\
  ~ In 12 (map fst (extract_traced ascii_lower ascii_upper sample_float_str
                      merged_sheet (cp "a.xlsx") 11)) /\
  exists rec,
    In (13, rec) (extract_traced ascii_lower ascii_upper sample_float_str
                    merged_sheet (cp "a.xlsx") 11) /\
    tag_do_equipamento rec = Some (cp "EQ-2").
Proof.
  assert (E : map fst (extract_traced ascii_lower ascii_upper sample_float_str
                         merged_sheet (cp "a.xlsx") 11) = [11; 13])
    by (vm_compute; reflexivity).
  assert (H1 : In 13 (map fst (extract_traced ascii_lower ascii_upper
                                 sample_float_str merged_sheet
                                 (cp "a.xlsx") 11))).
  { rewrite E. right. left. reflexivity. }
  assert (H2 : 11 <= 12 < 13) by lia.
  assert (H3 : get_group ascii_lower sample_float_str merged_sheet 12
                 COLS_EQUIP_TAG [SP] = Some (cp "EQ-2"))
    by (vm_compute; reflexivity).
  assert (H4 : row_has_source_info ascii_lower sample_float_str
                 merged_sheet 12 = false) by (vm_compute; reflexivity).
  assert (H5 : forall q', 12 < q' <= 13 ->
                 get_group ascii_lower sample_float_str merged_sheet q'
                   COLS_EQUIP_TAG [SP] = None).
  { intros q' Hq'. assert (Eq : q' = 13) by lia. subst q'.
    vm_compute. reflexivity. }
  split; [exact H1|].
  exact (dropped_row_feeds_fill_down ascii_lower ascii_upper sample_float_str
           merged_sheet (cp "a.xlsx") 11 12 13 (cp "EQ-2") H1 H2 H3 H4 H5).
Defined.

Lemma converted_counts_conversions_witness :
  is_xls ascii_lower nat legacy_suffix 1 = false /\
  fst (file_outcome ascii_lower ascii_upper sample_float_str
         nat sample_name legacy_suffix unit sample_load legacy_convert tt 1)
    = tt /\
  converted
    (snd (main_loop ascii_lower ascii_upper sample_float_str
            nat sample_name legacy_suffix unit sample_load legacy_convert tt
            main_init [1; 4; 5])) = 1.
Proof.
  assert (H : is_xls ascii_lower nat legacy_suffix 1 = false)
    by (vm_compute; reflexivity).
  destruct (converted_counts_conversions ascii_lower ascii_upper
              sample_float_str nat sample_name legacy_suffix unit sample_load
              legacy_convert tt main_init [1; 4; 5]) as (Hc & _ & Hw).
  split; [exact H|]. split; [exact (Hw 1 H)|].
  rewrite Hc. vm_compute. reflexivity.
Defined.

Lemma consolidated_records_name_their_file_witness :
  let rec :=
    record_at ascii_lower sample_float_str sample_sheet (sample_name 3) 11 11 in
  In rec
    (all_records
       (snd (main_loop ascii_lower ascii_upper sample_float_str
               nat sample_name sample_suffix unit sample_load sample_convert
               tt main_init [1; 2; 3]))) /\
  exists f recs,
    In f [1; 2; 3] /\
    In (f, Ok recs)
      (batch_outcomes ascii_lower ascii_upper sample_float_str
         nat sample_name sample_suffix unit sample_load sample_convert
         tt [1; 2; 3]) /\
    In rec recs /\ arquivo_de_origem rec = sample_name f.
Proof.
  intros rec.
  assert (H : In rec
    (all_records
       (snd (main_loop ascii_lower ascii_upper sample_float_str
               nat sample_name sample_suffix unit sample_load sample_convert
               tt main_init [1; 2; 3])))).
  { vm_compute. right. right. left. reflexivity. }
  split; [exact H|].
  exact (consolidated_records_name_their_file ascii_lower ascii_upper
           sample_float_str nat sample_name sample_suffix unit sample_load
           sample_convert tt [1; 2; 3] rec H).
Defined.

Lemma list_input_files_spec_witness :
  list_input_files nat sample_name' unit (fun _ => true) sample_rglob
    Nat.leb Nat.eqb tt = [1; 2; 3] /\
  NoDup (list_input_files nat sample_name' unit (fun _ => true) sample_rglob
           Nat.leb Nat.eqb tt) /\
  ~ In 7 (list_input_files nat sample_name' unit (fun _ => true) sample_rglob
            Nat.leb Nat.eqb tt).
Proof.
  destruct (list_input_files_spec nat sample_name' unit (fun _ => true)
              sample_rglob Nat.leb Nat.eqb Nat.eqb_eq nat_leb_total
              nat_leb_trans tt) as (_ & Hnd & Hin).
  split; [vm_compute; reflexivity|]. split; [exact Hnd|].
  intros H7. apply Hin in H7 as (_ & Hlock & _). discriminate Hlock.
Defined.
